(** * A ledger of star claims: blockchain.js

    Shallow embedding of the class [Blockchain] of src/blockchain.js and of
    the part of the JavaScript run time its methods rely on: numbers with
    NaN, string operations, promises and the queue of promise jobs
    (microtasks).  Every method of the class is translated statement by
    statement; an [await] or a [then] callback becomes a named continuation
    that the job queue runs later, in the order JavaScript runs them. *)

From Stdlib Require Import ZArith Lia Ascii String.
From stdpp Require Import base list strings pretty.

(** ** JavaScript values *)

Module JS.

(** Numbers: the integers the program computes with (clock readings,
    heights), and NaN, which [parseInt] returns on a string without digits.
    Integers are exact up to 2^53 in a double; clock readings in
    milliseconds and chain heights stay far below. *)
Inductive Number := NaN | Int (z : Z).

Definition sub (a b : Number) : Number :=
  match a, b with
  | Int x, Int y => Int (x - y)
  | _, _ => NaN
  end.

(** [a > b]; false as soon as one side is NaN. *)
Definition gt (a b : Number) : bool :=
  match a, b with
  | Int x, Int y => (y <? x)%Z
  | _, _ => false
  end.

(** Primitive values that end up in the fields of a block. *)
Inductive Prim := Undefined | Null | Num (n : Number) | Str (s : string).

Definition Number_toString (n : Number) : string :=
  match n with
  | NaN => "NaN"
  | Int z => pretty z
  end.

Definition ToString (p : Prim) : string :=
  match p with
  | Undefined => "undefined"
  | Null => "null"
  | Num n => Number_toString n
  | Str s => s
  end.

Definition ToNumber (p : Prim) : Number :=
  match p with
  | Null => Int 0
  | Num n => n
  | _ => NaN
  end.

(** The operator [+]: concatenation as soon as one operand is a string,
    addition of numbers otherwise.  ([ToNumber] of a string is never needed:
    a string operand selects concatenation.) *)
Definition add (a b : Prim) : Prim :=
  match a, b with
  | Str s, _ => Str (s +:+ ToString b)
  | _, Str s => Str (ToString a +:+ s)
  | _, _ =>
      match ToNumber a, ToNumber b with
      | Int x, Int y => Num (Int (x + y))
      | _, _ => Num NaN
      end
  end.

(** [s.slice(b, e)]: a negative index counts from the end. *)
Definition slice_index (len i : Z) : Z :=
  if (i <? 0)%Z then Z.max (len + i) 0 else Z.min i len.

Definition slice (s : string) (b e : Z) : string :=
  let len := Z.of_nat (String.length s) in
  let from := slice_index len b in
  let to := slice_index len e in
  String.substring (Z.to_nat from) (Z.to_nat (to - from)) s.

(** [s.split(sep)] for a separator of one character. *)
Fixpoint split (sep : ascii) (s : string) : list string :=
  match s with
  | EmptyString => [EmptyString]
  | String a s' =>
      if Ascii.eqb a sep then EmptyString :: split sep s'
      else match split sep s' with
           | w :: ws => String a w :: ws
           | [] => [String a EmptyString]
           end
  end.

(** [parseInt(s)] without a radix: leading white space is skipped, a sign is
    read, a prefix 0x or 0X selects base 16, and the longest run of digits
    is the result; NaN when there is no digit.  Strings are texts of ASCII
    characters here; on them the white space of JavaScript is the
    characters 9 to 13 and 32 (its white space beyond ASCII, such as
    U+00A0, is not part of the model). *)
Definition is_white_space (a : ascii) : bool :=
  let n := nat_of_ascii a in
  ((9 <=? n)%nat && (n <=? 13)%nat) || (n =? 32)%nat.

Fixpoint trim_start (s : string) : string :=
  match s with
  | String a s' => if is_white_space a then trim_start s' else s
  | EmptyString => EmptyString
  end.

Definition digit_value (radix : Z) (a : ascii) : option Z :=
  let n := Z.of_nat (nat_of_ascii a) in
  let d :=
    if ((48 <=? n) && (n <=? 57))%Z then Some (n - 48)%Z
    else if ((97 <=? n) && (n <=? 122))%Z then Some (n - 87)%Z
    else if ((65 <=? n) && (n <=? 90))%Z then Some (n - 55)%Z
    else None in
  match d with
  | Some v => if (v <? radix)%Z then Some v else None
  | None => None
  end.

Fixpoint parse_digits (radix : Z) (acc : option Z) (s : string) : option Z :=
  match s with
  | EmptyString => acc
  | String a s' =>
      match digit_value radix a with
      | Some d => parse_digits radix (Some (radix * default 0%Z acc + d)%Z) s'
      | None => acc
      end
  end.

Definition parseInt (s : string) : Number :=
  let s := trim_start s in
  let '(sign, s) :=
    match s with
    | String "-" r => ((-1)%Z, r)
    | String "+" r => (1%Z, r)
    | _ => (1%Z, s)
    end in
  let '(radix, s) :=
    match s with
    | String "0" (String "x" r) => (16%Z, r)
    | String "0" (String "X" r) => (16%Z, r)
    | _ => (10%Z, s)
    end in
  match parse_digits radix None s with
  | Some v => Int (sign * v)
  | None => NaN
  end.

(** [parseInt(a[1])] where [a[1]] is undefined when the array is too short:
    [parseInt] converts its argument to a string first. *)
Definition parseInt_element (x : option string) : Number :=
  match x with
  | Some s => parseInt s
  | None => parseInt (ToString Undefined)
  end.

(** Abrupt completion of a call: a value or a thrown error. *)
Inductive Error :=
| TypeError (msg : string)
| ReferenceError (msg : string)
| OtherError (msg : string).

Inductive Completion (A : Type) :=
| Normal (a : A)
| Throw (e : Error).
Arguments Normal {A} a.
Arguments Throw {A} e.

End JS.

(** ** Blocks

    block.js is not part of the sources.  What blockchain.js needs of it is
    the object [new BlockClass.Block({data: d})]: its property [body] keeps
    an encoding of the argument, and the properties [hash], [height], [time]
    and [previousBlockHash] are all assigned by [_addBlock] before the block
    is pushed.  A block of the chain is therefore a record of the five
    properties as [_addBlock] leaves them; [body] is taken to be a string,
    so that [+] concatenates in the hashed expression. *)

Module Block.
Record t := mk {
  hash : string;
  height : Z;
  body : string;
  time : string;
  previousBlockHash : JS.Prim
}.
End Block.

(** ** Promises and the job queue *)

(** Values a promise of this program is settled with. *)
Inductive Value :=
| VUndefined
| VNull
| VNumber (z : Z)
| VString (s : string)
| VBlock (b : Block.t)
| VArray (items : list string)
| VError (e : JS.Error).

(** The code that follows an [await], and the callbacks given to [then]:
    each keeps the variables it still uses. *)
Inductive Kont :=
| addBlock_afterHeight (body time : string) (pA : nat)
    (* _addBlock, after [await self.getChainHeight()] *)
| addBlock_afterPrevious (body time : string) (height : Z) (pA : nat)
    (* _addBlock, after [await self.getBlockByHeight(currentHeight).hash] *)
| initializeChain_afterAdd (pI : nat)
    (* initializeChain, after [await this._addBlock(block)] *)
| submitStar_afterAdd (pS : nat)
    (* submitStar, after [await this._addBlock(block)] *)
| getBlockByHash_onHeight (hash : string) (pH : nat)
    (* getBlockByHash, [function(height){...}] *)
| getBlockByHash_onBlock (hash : string) (pH : nat)
    (* getBlockByHash, [function(block){...}] *)
| getStars_onHeight (address : string)
    (* getStarsByWalletAddress, [function(height){...}] *)
| getStars_onBlock (address : string).
    (* getStarsByWalletAddress, [function(block){...}] *)

Inductive Promise :=
| Pending (reactions : list Kont)
| Fulfilled (v : Value)
| Rejected (v : Value).

(** The ledger object ([this.chain], [this.height]) and the run time around
    it: the promises created so far (a promise is its index), the queue of
    promise jobs, the rejections that no code handles, the calls made to
    [bitcoinMessage.verify], and how often the clock was read. *)
Record State := mkState {
  chain : list Block.t;
  height : Z;
  promises : list Promise;
  jobs : list (Kont * Value);
  unhandled : list Value;
  verifyCalls : list (string * string * string);
  clockReads : nat
}.

Definition set_chain (c : list Block.t) (st : State) : State :=
  mkState c (height st) (promises st) (jobs st) (unhandled st)
          (verifyCalls st) (clockReads st).
Definition set_height (h : Z) (st : State) : State :=
  mkState (chain st) h (promises st) (jobs st) (unhandled st)
          (verifyCalls st) (clockReads st).
Definition set_promises (ps : list Promise) (st : State) : State :=
  mkState (chain st) (height st) ps (jobs st) (unhandled st)
          (verifyCalls st) (clockReads st).
Definition set_jobs (js : list (Kont * Value)) (st : State) : State :=
  mkState (chain st) (height st) (promises st) js (unhandled st)
          (verifyCalls st) (clockReads st).
Definition set_unhandled (us : list Value) (st : State) : State :=
  mkState (chain st) (height st) (promises st) (jobs st) us
          (verifyCalls st) (clockReads st).
Definition set_verifyCalls (vs : list (string * string * string)) (st : State) : State :=
  mkState (chain st) (height st) (promises st) (jobs st) (unhandled st)
          vs (clockReads st).
Definition set_clockReads (n : nat) (st : State) : State :=
  mkState (chain st) (height st) (promises st) (jobs st) (unhandled st)
          (verifyCalls st) n.

(** [new Promise(...)]: a fresh pending promise. *)
Definition newPromise (st : State) : nat * State :=
  (length (promises st), set_promises (promises st ++ [Pending []]) st).

(** An error leaves an async function or a [then] callback whose own promise
    nobody holds: an unhandled rejection. *)
Definition throwUnhandled (v : Value) (st : State) : State :=
  set_unhandled (unhandled st ++ [v]) st.

(** A continuation whose awaited promise is rejected does not run: the
    rejection is thrown into its async function.  [initializeChain] is the
    one async function whose promise is kept in the store. *)
Definition abandon (v : Value) (st : State) (k : Kont) : State :=
  match k with
  | initializeChain_afterAdd pI =>
      set_promises (<[pI := Rejected v]> (promises st)) st
  | _ => throwUnhandled v st
  end.

(** [resolve(v)]: settles a pending promise and queues one job per
    reaction; nothing happens on a settled promise. *)
Definition resolvePromise (p : nat) (v : Value) (st : State) : State :=
  match promises st !! p with
  | Some (Pending rs) =>
      set_jobs (jobs st ++ map (fun k => (k, v)) rs)
               (set_promises (<[p := Fulfilled v]> (promises st)) st)
  | _ => st
  end.

(** [reject(v)]. *)
Definition rejectPromise (p : nat) (v : Value) (st : State) : State :=
  match promises st !! p with
  | Some (Pending rs) =>
      foldl (abandon v) (set_promises (<[p := Rejected v]> (promises st)) st) rs
  | _ => st
  end.

(** [await p] and [p.then(k)]: the continuation runs in a later job, at once
    queued when [p] is already fulfilled. *)
Definition onFulfilled (p : nat) (k : Kont) (st : State) : State :=
  match promises st !! p with
  | Some (Pending rs) => set_promises (<[p := Pending (rs ++ [k])]> (promises st)) st
  | Some (Fulfilled v) => set_jobs (jobs st ++ [(k, v)]) st
  | Some (Rejected v) => abandon v st k
  | None => st
  end.

(** [await v] for a value that is not a promise. *)
Definition awaitValue (v : Value) (k : Kont) (st : State) : State :=
  set_jobs (jobs st ++ [(k, v)]) st.

(** A primitive value as a block property. *)
Definition prim_of_value (v : Value) : option JS.Prim :=
  match v with
  | VUndefined => Some JS.Undefined
  | VNull => Some JS.Null
  | VNumber z => Some (JS.Num (JS.Int z))
  | VString s => Some (JS.Str s)
  | _ => None
  end.

(** ** Names the class can see *)

(** Members of a [Blockchain] object: the two properties set by the
    constructor and the methods of the class body. *)
Definition Blockchain_members : list string :=
  ["chain"; "height"; "constructor"; "initializeChain"; "getChainHeight";
   "_addBlock"; "requestMessageOwnershipVerification"; "submitStar";
   "getBlockByHash"; "getBlockByHeight"; "getStarsByWalletAddress";
   "validateChain"].

(** [this.name(...)]: a TypeError when the object has no such member. *)
Definition member (name : string) : JS.Completion string :=
  if existsb (String.eqb name) Blockchain_members then JS.Normal name
  else JS.Throw (JS.TypeError ("this." +:+ name +:+ " is not a function")).

(** Identifiers in scope in the executor of [getStarsByWalletAddress]:
    its parameters, the locals and parameter of the method, the constants
    and the class of the module, the names a Node module receives and the
    globals the file uses. *)
Definition getStarsByWalletAddress_scope : list string :=
  ["resolve"; "reject"; "self"; "stars"; "address";
   "SHA256"; "BlockClass"; "bitcoinMessage"; "Blockchain";
   "exports"; "require"; "module"; "__filename"; "__dirname";
   "console"; "Promise"; "Date"; "parseInt"].

(** Reading an identifier: a ReferenceError when nothing binds it. *)
Definition identifier (scope : list string) (name : string) : JS.Completion string :=
  if existsb (String.eqb name) scope then JS.Normal name
  else JS.Throw (JS.ReferenceError (name +:+ " is not defined")).

(** ** The class Blockchain *)

Section Blockchain.

(** What the module imports and the clock it reads:
    - [clock n] is the value of the n-th [new Date().getTime()];
    - [SHA256 s] is [SHA256(s).toString()] of crypto-js;
    - [verify message address signature] is [bitcoinMessage.verify], which
      returns a boolean or throws on a malformed signature;
    - [Block_body d] is the [body] of [new BlockClass.Block({data: d})]. *)
Variable clock : nat -> Z.
Variable SHA256 : string -> string.
Variable verify : string -> string -> string -> JS.Completion bool.
Variable Block_body : string -> string.

(** [new Date().getTime()] *)
Definition getTime (st : State) : Z * State :=
  (clock (clockReads st), set_clockReads (S (clockReads st)) st).

(** [new Date().getTime().toString().slice(0, -3)] *)
Definition timeString (ms : Z) : string := JS.slice (pretty ms) 0 (-3).

(** [getChainHeight()]: a promise fulfilled with [this.height]. *)
Definition getChainHeight (st : State) : nat * State :=
  let '(p, st) := newPromise st in
  (p, resolvePromise p (VNumber (height st)) st).

(** [self.chain.filter(p => p.height === height)[0]] *)
Definition blockAtHeight (h : Z) (c : list Block.t) : option Block.t :=
  head (filter (fun p => Block.height p = h) c).

(** [getBlockByHeight(height)]: a promise fulfilled with the first block of
    that height, or with null. *)
Definition getBlockByHeight (h : Z) (st : State) : nat * State :=
  let '(p, st) := newPromise st in
  let block := blockAtHeight h (chain st) in
  (p, resolvePromise p (match block with
                        | Some b => VBlock b
                        | None => VNull
                        end) st).

(** [_addBlock(block)], up to its first [await]; [body] is [block.body]. *)
Definition _addBlock (body : string) (st : State) : nat * State :=
  let '(pA, st) := newPromise st in
  let '(ms, st) := getTime st in
  let time := timeString ms in
  let '(p, st) := getChainHeight st in
  (pA, onFulfilled p (addBlock_afterHeight body time pA) st).

(** [initializeChain()] *)
Definition initializeChain (st : State) : nat * State :=
  let '(pI, st) := newPromise st in
  if (height st =? -1)%Z then
    let '(pA, st) := _addBlock (Block_body "Genesis Block") st in
    (pI, onFulfilled pA (initializeChain_afterAdd pI) st)
  else (pI, resolvePromise pI VUndefined st).

(** [new Blockchain()], in a run time that has not done anything yet: the
    state when the constructor returns. *)
Definition constructor : State :=
  snd (initializeChain (mkState [] (-1) [] [] [] [] 0)).

(** [requestMessageOwnershipVerification(address)] *)
Definition requestMessageOwnershipVerification (address : string) (st : State)
  : nat * State :=
  let '(p, st) := newPromise st in
  let '(ms, st) := getTime st in
  let unsignedMessage := address +:+ ":" +:+ timeString ms +:+ ":starRegistry" in
  (p, resolvePromise p (VString unsignedMessage) st).

(** The condition of the [if] of [submitStar], for the clock reading [ms]:
    [currentTime - messageTime > 60 * 5]. *)
Definition expired (ms : Z) (message : string) : bool :=
  JS.gt (JS.sub (JS.parseInt (timeString ms))
                (JS.parseInt_element (JS.split ":" message !! 1%nat)))
        (JS.Int (60 * 5)).

(** [submitStar(address, message, signature, star)], up to its [await]. *)
Definition submitStar (address message signature : string) (star : Value)
  (st : State) : nat * State :=
  let '(pS, st) := newPromise st in
  let messageTime := JS.parseInt_element (JS.split ":" message !! 1%nat) in
  let '(ms, st) := getTime st in
  let currentTime := JS.parseInt (timeString ms) in
  let st := if JS.gt (JS.sub currentTime messageTime) (JS.Int (60 * 5))
            then rejectPromise pS VUndefined st else st in
  let st := set_verifyCalls (verifyCalls st ++ [(message, address, signature)]) st in
  match verify message address signature with
  | JS.Throw e => (pS, throwUnhandled (VError e) st)
  | JS.Normal _ =>
      let '(pA, st) := _addBlock (Block_body message) st in
      (pS, onFulfilled pA (submitStar_afterAdd pS) st)
  end.

(** [getBlockByHash(hash)], up to the registration of its first callback. *)
Definition getBlockByHash (hash : string) (st : State) : nat * State :=
  let '(pH, st) := newPromise st in
  let '(p, st) := getChainHeight st in
  (pH, onFulfilled p (getBlockByHash_onHeight hash pH) st).

(** [getStarsByWalletAddress(address)]: the first statement of the executor
    reads [hash]. *)
Definition getStarsByWalletAddress (address : string) (st : State) : nat * State :=
  let '(pG, st) := newPromise st in
  match identifier getStarsByWalletAddress_scope "hash" with
  | JS.Throw e => (pG, rejectPromise pG (VError e) st)
  | JS.Normal _ =>
      let '(p, st) := getChainHeight st in
      let st := onFulfilled p (getStars_onHeight address) st in
      (pG, resolvePromise pG (VArray []) st)
  end.

(** [validateChain()]: the first statement of the async executor calls
    [this.getBlockHeight()].  The error leaves the async executor, so the
    promise returned is not rejected by it.  The class has no code for the
    case where the member exists: [None]. *)
Definition validateChain (st : State) : option (nat * State) :=
  let '(pV, st) := newPromise st in
  match member "getBlockHeight" with
  | JS.Throw e => Some (pV, throwUnhandled (VError e) st)
  | JS.Normal _ => None
  end.

(** [for (let i = from; i < to; i++) { self.getBlockByHeight(i).then(k) }] *)
Definition forEachHeight (from to : Z) (k : Kont) (st : State) : State :=
  foldl (fun st i => let '(p, st) := getBlockByHeight i st in onFulfilled p k st)
        st (seqZ from (to - from)).

(** One job: the continuation [k] runs with the value [v] of the promise it
    waited for.  [None] marks a value of a kind the continuation cannot
    receive from the promise it is registered on. *)
Definition resume (k : Kont) (v : Value) (st : State) : option State :=
  match k, v with
  | addBlock_afterHeight body time pA, VNumber currentHeight =>
      let h := (currentHeight + 1)%Z in
      let st := set_height (height st + 1) st in
      (* [self.getBlockByHeight(currentHeight)] is a promise; its property
         [hash] is undefined, and that is what is awaited *)
      let '(_, st) := getBlockByHeight currentHeight st in
      Some (awaitValue VUndefined (addBlock_afterPrevious body time h pA) st)
  | addBlock_afterPrevious body time h pA, v =>
      match prim_of_value v with
      | Some previous =>
          let digest :=
            SHA256 (JS.ToString
                      (JS.add (JS.add (JS.add (JS.Num (JS.Int h)) (JS.Str body))
                                      (JS.Str time)) previous)) in
          let block := Block.mk digest h body time previous in
          let st := set_chain (chain st ++ [block]) st in
          Some (resolvePromise pA (VBlock block) st)
      | None => None
      end
  | initializeChain_afterAdd pI, _ => Some (resolvePromise pI VUndefined st)
  | submitStar_afterAdd pS, _ => Some (resolvePromise pS VUndefined st)
  | getBlockByHash_onHeight hash pH, VNumber h =>
      Some (forEachHeight 0 (h + 1) (getBlockByHash_onBlock hash pH) st)
  | getBlockByHash_onBlock hash pH, VBlock block =>
      if String.eqb (Block.hash block) hash
      then Some (resolvePromise pH (VBlock block) st)
      else Some st
  | getBlockByHash_onBlock hash pH, VNull =>
      Some (throwUnhandled
              (VError (JS.TypeError "Cannot read property 'hash' of null")) st)
  | getStars_onHeight address, VNumber h =>
      Some (forEachHeight 0 h (getStars_onBlock address) st)
  | getStars_onBlock address, VBlock block =>
      (* [block.body] is a string: its property [address] is undefined,
         which is not [==] to a string *)
      Some st
  | getStars_onBlock address, VNull =>
      Some (throwUnhandled
              (VError (JS.TypeError "Cannot read property 'body' of null")) st)
  | _, _ => None
  end.

(** The block that [_addBlock] pushes when the awaited value is undefined:
    the hashed string is the height, the body, the time and "undefined". *)
Definition sealed (h : Z) (body t : string) : Block.t :=
  Block.mk (SHA256 (pretty h +:+ body +:+ t +:+ "undefined")) h body t JS.Undefined.

(** The job queue: the oldest job runs first. *)
Definition step (st : State) : option State :=
  match jobs st with
  | [] => None
  | (k, v) :: rest => resume k v (set_jobs rest st)
  end.

(** The state after at most [n] jobs. *)
Fixpoint run (n : nat) (st : State) : State :=
  match n with
  | O => st
  | S n' => match step st with
            | Some st' => run n' st'
            | None => st
            end
  end.

(** No job is left: the program waits for its next caller. *)
Definition idle (st : State) : Prop := jobs st = [].

(** The state of promise [p]. *)
Definition promiseState (p : nat) (st : State) : option Promise := promises st !! p.

(** The data model of the ledger: the block at position [i] has height [i],
    and [this.height] is the last position. *)
Definition consistent (st : State) : Prop :=
  height st = (Z.of_nat (length (chain st)) - 1)%Z /\
  forall (i : nat) (b : Block.t), chain st !! i = Some b -> Block.height b = Z.of_nat i.

(** Ledgers used one call at a time: the caller lets the jobs of the
    constructor and of each submission run before the next call. *)
Inductive sequential : State -> Prop :=
| sequential_new :
    sequential (run 3 constructor)
| sequential_submitStar st address message signature star :
    sequential st ->
    sequential (run 3 (snd (submitStar address message signature star st)))
| sequential_requestMessage st address :
    sequential st ->
    sequential (snd (requestMessageOwnershipVerification address st))
| sequential_getChainHeight st :
    sequential st ->
    sequential (snd (getChainHeight st))
| sequential_getBlockByHeight st h :
    sequential st ->
    sequential (snd (getBlockByHeight h st)).

(** What every ledger used one call at a time satisfies. *)
Definition settled (st : State) : Prop :=
  idle st /\
  consistent st /\
  Forall (fun b => Block.previousBlockHash b = JS.Undefined) (chain st) /\
  chain st !! 0%nat
  = Some (sealed 0 (Block_body "Genesis Block") (timeString (clock 0))).

(** What holds while [getBlockByHash] runs on a chain [c] without the hash:
    the chain is [c], the promise [pH] is pending, and every job is the
    callback of one block of [c] or of null. *)
Definition searching (hash : string) (pH : nat) (c : list Block.t) (st : State) : Prop :=
  chain st = c /\
  promises st !! pH = Some (Pending []) /\
  Forall (fun j => fst j = getBlockByHash_onBlock hash pH /\
                   (snd j = VNull \/ exists b, b ∈ c /\ snd j = VBlock b))
         (jobs st).

(** Every way a ledger can go on from the state [st0]: a job runs, or a
    caller calls one of the public methods, in any order and without
    waiting for anything. *)
Inductive evolves (st0 : State) : State -> Prop :=
| evolves_start :
    evolves st0 st0
| evolves_job st st' :
    evolves st0 st -> step st = Some st' -> evolves st0 st'
| evolves_submitStar st address message signature star :
    evolves st0 st ->
    evolves st0 (snd (submitStar address message signature star st))
| evolves_requestMessage st address :
    evolves st0 st ->
    evolves st0 (snd (requestMessageOwnershipVerification address st))
| evolves_getBlockByHash st hash :
    evolves st0 st -> evolves st0 (snd (getBlockByHash hash st))
| evolves_getBlockByHeight st h :
    evolves st0 st -> evolves st0 (snd (getBlockByHeight h st))
| evolves_getStarsByWalletAddress st address :
    evolves st0 st -> evolves st0 (snd (getStarsByWalletAddress address st))
| evolves_getChainHeight st :
    evolves st0 st -> evolves st0 (snd (getChainHeight st))
| evolves_initializeChain st :
    evolves st0 st -> evolves st0 (snd (initializeChain st))
| evolves_validateChain st pV st' :
    evolves st0 st -> validateChain st = Some (pV, st') -> evolves st0 st'.

End Blockchain.

(** ** A concrete environment

    A clock that starts at 1600000000000 ms and advances by one millisecond
    per reading, a digest that only marks its input, a verifier that accepts
    the signature "good", rejects the others and throws on the empty one,
    and a block body that is the data itself. *)
Module Demo.

Definition clock (n : nat) : Z := (1600000000000 + Z.of_nat n)%Z.
Definition SHA256 (s : string) : string := "sha256(" +:+ s +:+ ")".
Definition verify (message address signature : string) : JS.Completion bool :=
  if String.eqb signature EmptyString
  then JS.Throw (JS.OtherError "Invalid signature length")
  else JS.Normal (String.eqb signature "good").
Definition Block_body (d : string) : string := d.

(** The ledger once the jobs started by the constructor have run. *)
Definition ledger : State := run SHA256 3 (constructor clock Block_body).

(** A challenge issued for "addr" one hour before the demo clock starts. *)
Definition oldMessage : string := "addr:1599996400:starRegistry".
(** A challenge issued for "addr" as the demo clock starts. *)
Definition freshMessage : string := "addr:1600000000:starRegistry".

(** The blocks of the demo ledger after one submission of [freshMessage]. *)
Definition genesis : Block.t :=
  Block.mk "sha256(0Genesis Block1600000000undefined)" 0 "Genesis Block"
           "1600000000" JS.Undefined.
Definition block1 : Block.t :=
  Block.mk "sha256(1addr:1600000000:starRegistry1600000000undefined)" 1
           "addr:1600000000:starRegistry" "1600000000" JS.Undefined.

Definition submit (message signature : string) (st : State) : nat * State :=
  let '(p, st) := submitStar clock verify Block_body "addr" message signature VUndefined st in
  (p, run SHA256 3 st).

End Demo.

(** ** Vocabulary of the further properties *)

(** The character [c] occurs in [s]. *)
Fixpoint contains (c : ascii) (s : string) : bool :=
  match s with
  | EmptyString => false
  | String a s' => Ascii.eqb a c || contains c s'
  end.

(** [s] is made of the characters 0 to 9 only. *)
Definition is_digit (a : ascii) : bool :=
  ((48 <=? nat_of_ascii a) && (nat_of_ascii a <=? 57))%nat.

Fixpoint all_digits (s : string) : bool :=
  match s with
  | EmptyString => true
  | String a s' => is_digit a && all_digits s'
  end.

(** The first block of [c], in chain order, whose hash is [hash]. *)
Definition firstWithHash (hash : string) (c : list Block.t) : option Block.t :=
  List.find (fun b => String.eqb (Block.hash b) hash) c.

(** Two states with the same ledger proper: [this.chain] and
    [this.height]. *)
Definition same_ledger (st st' : State) : Prop :=
  chain st' = chain st /\ height st' = height st.

(** Continuations other than those of [_addBlock]. *)
Definition plain (k : Kont) : Prop :=
  match k with
  | addBlock_afterHeight _ _ _ | addBlock_afterPrevious _ _ _ _ => False
  | _ => True
  end.

(** A job of [_addBlock] carries a height that [this.height], here [h],
    has reached: the height it read, or the height of its block. *)
Definition job_ok (h : Z) (j : Kont * Value) : Prop :=
  match j with
  | (addBlock_afterHeight _ _ _, VNumber ch) => (-1 <= ch <= h)%Z
  | (addBlock_afterPrevious _ _ bh _, _) => (0 <= bh <= h)%Z
  | _ => True
  end.

Definition promise_ok (P : Promise) : Prop :=
  match P with
  | Pending rs => Forall plain rs
  | _ => True
  end.

(** Heights stay within bounds: no block is below 0 or above
    [this.height], which is at least -1, and the same holds of the
    appends in flight. *)
Definition bounded (st : State) : Prop :=
  (-1 <= height st)%Z /\
  Forall (fun b => 0 <= Block.height b <= height st)%Z (chain st) /\
  Forall (job_ok (height st)) (jobs st) /\
  Forall promise_ok (promises st).

(** The string [_addBlock] hashes for a block: height, body, time and the
    text of the undefined previous hash. *)
Definition hashedText (b : Block.t) : string :=
  pretty (Block.height b) +:+ Block.body b +:+ Block.time b +:+ "undefined".

(** * Properties *)

(** ** Strings *)

Lemma append_assoc (s1 s2 s3 : string) : (s1 +:+ s2) +:+ s3 = s1 +:+ (s2 +:+ s3).
Proof.
  induction s1 as [|a s1 IH]; [done|].
  change (String a ((s1 +:+ s2) +:+ s3) = String a (s1 +:+ (s2 +:+ s3))).
  by rewrite IH.
Qed.

Lemma append_length (s1 s2 : string) :
  String.length (s1 +:+ s2) = (String.length s1 + String.length s2)%nat.
Proof.
  induction s1 as [|a s1 IH]; [done|].
  change (S (String.length (s1 +:+ s2)) = S (String.length s1 + String.length s2)).
  by rewrite IH.
Qed.

Lemma substring_prefix (s1 s2 : string) :
  String.substring 0 (String.length s1) (s1 +:+ s2) = s1.
Proof.
  induction s1 as [|a s1 IH]; [by destruct s2|].
  change (String a (String.substring 0 (String.length s1) (s1 +:+ s2)) = String a s1).
  by rewrite IH.
Qed.

(** ** The promise store *)

Section Store.

Implicit Types (ps : list Promise) (c : list Block.t) (js : list (Kont * Value)).

Lemma store_lookup ps1 ps2 (x : Promise) :
  (ps1 ++ x :: ps2) !! length ps1 = Some x.
Proof. by apply list_lookup_middle. Qed.

Lemma store_insert ps1 ps2 (x y : Promise) :
  <[length ps1 := y]> (ps1 ++ x :: ps2) = ps1 ++ y :: ps2.
Proof.
  rewrite <- (Nat.add_0_r (length ps1)). by rewrite insert_app_r.
Qed.

Lemma newPromise_eq c h ps js us vs n :
  newPromise (mkState c h ps js us vs n)
  = (length ps, mkState c h (ps ++ [Pending []]) js us vs n).
Proof. reflexivity. Qed.

Lemma resolvePromise_pending c h ps1 ps2 rs js us vs n v :
  resolvePromise (length ps1) v (mkState c h (ps1 ++ Pending rs :: ps2) js us vs n)
  = mkState c h (ps1 ++ Fulfilled v :: ps2)
            (js ++ map (fun k => (k, v)) rs) us vs n.
Proof.
  unfold resolvePromise; cbn. rewrite store_lookup. unfold set_jobs, set_promises; cbn.
  by rewrite store_insert.
Qed.

Lemma resolvePromise_rejected c h ps1 ps2 w js us vs n v :
  resolvePromise (length ps1) v (mkState c h (ps1 ++ Rejected w :: ps2) js us vs n)
  = mkState c h (ps1 ++ Rejected w :: ps2) js us vs n.
Proof. unfold resolvePromise; cbn. by rewrite store_lookup. Qed.

Lemma rejectPromise_fresh c h ps1 ps2 js us vs n v :
  rejectPromise (length ps1) v (mkState c h (ps1 ++ Pending [] :: ps2) js us vs n)
  = mkState c h (ps1 ++ Rejected v :: ps2) js us vs n.
Proof.
  unfold rejectPromise; cbn. rewrite store_lookup. unfold set_promises; cbn.
  by rewrite store_insert.
Qed.

Lemma onFulfilled_pending c h ps1 ps2 rs js us vs n k :
  onFulfilled (length ps1) k (mkState c h (ps1 ++ Pending rs :: ps2) js us vs n)
  = mkState c h (ps1 ++ Pending (rs ++ [k]) :: ps2) js us vs n.
Proof.
  unfold onFulfilled; cbn. rewrite store_lookup. unfold set_promises; cbn.
  by rewrite store_insert.
Qed.

Lemma onFulfilled_fulfilled c h ps1 ps2 v js us vs n k :
  onFulfilled (length ps1) k (mkState c h (ps1 ++ Fulfilled v :: ps2) js us vs n)
  = mkState c h (ps1 ++ Fulfilled v :: ps2) (js ++ [(k, v)]) us vs n.
Proof. unfold onFulfilled; cbn. by rewrite store_lookup. Qed.

Lemma snoc2 {A} (l : list A) (x y : A) : (l ++ [x]) ++ [y] = l ++ [x; y].
Proof. by rewrite <- app_assoc. Qed.

End Store.

(** Projections of explicit states. *)
Ltac state_simpl :=
  unfold set_chain, set_height, set_promises, set_jobs, set_unhandled,
    set_verifyCalls, set_clockReads, throwUnhandled, awaitValue;
  cbn [chain height promises jobs unhandled verifyCalls clockReads
       app map fst snd].

(** ** The methods, one equation each *)

Section Equations.

Variable clock : nat -> Z.
Variable SHA256 : string -> string.
Variable verify : string -> string -> string -> JS.Completion bool.
Variable Block_body : string -> string.

Implicit Types (ps : list Promise) (c : list Block.t) (js : list (Kont * Value)).

Lemma getChainHeight_eq c h ps js us vs n :
  getChainHeight (mkState c h ps js us vs n)
  = (length ps, mkState c h (ps ++ [Fulfilled (VNumber h)]) js us vs n).
Proof.
  unfold getChainHeight. rewrite newPromise_eq. cbn [height].
  rewrite resolvePromise_pending. cbn. by rewrite app_nil_r.
Qed.

Lemma getBlockByHeight_eq i c h ps js us vs n :
  getBlockByHeight i (mkState c h ps js us vs n)
  = (length ps,
     mkState c h (ps ++ [Fulfilled (match blockAtHeight i c with
                                    | Some b => VBlock b
                                    | None => VNull
                                    end)]) js us vs n).
Proof.
  unfold getBlockByHeight. rewrite newPromise_eq. cbn [chain].
  rewrite resolvePromise_pending. cbn. by rewrite app_nil_r.
Qed.

Lemma _addBlock_eq body c h ps js us vs n :
  _addBlock clock body (mkState c h ps js us vs n)
  = (length ps,
     mkState c h (ps ++ [Pending []; Fulfilled (VNumber h)])
       (js ++ [(addBlock_afterHeight body (timeString (clock n)) (length ps),
                VNumber h)]) us vs (S n)).
Proof.
  unfold _addBlock. rewrite newPromise_eq.
  unfold getTime, set_clockReads; cbn -[getChainHeight onFulfilled timeString].
  rewrite getChainHeight_eq.
  rewrite (onFulfilled_fulfilled c h (ps ++ [Pending []]) []).
  by rewrite snoc2.
Qed.

Lemma resume_afterHeight body t pA ch c h ps js us vs n :
  resume SHA256 (addBlock_afterHeight body t pA) (VNumber ch)
         (mkState c h ps js us vs n)
  = Some (mkState c (h + 1)
            (ps ++ [Fulfilled (match blockAtHeight ch c with
                               | Some b => VBlock b
                               | None => VNull
                               end)])
            (js ++ [(addBlock_afterPrevious body t (ch + 1) pA, VUndefined)])
            us vs n).
Proof.
  unfold resume, set_height; cbn -[getBlockByHeight].
  by rewrite getBlockByHeight_eq.
Qed.

Lemma resume_afterPrevious body t bh c h ps1 ps2 rs js us vs n :
  resume SHA256 (addBlock_afterPrevious body t bh (length ps1)) VUndefined
         (mkState c h (ps1 ++ Pending rs :: ps2) js us vs n)
  = Some (mkState (c ++ [sealed SHA256 bh body t]) h
            (ps1 ++ Fulfilled (VBlock (sealed SHA256 bh body t)) :: ps2)
            (js ++ map (fun k => (k, VBlock (sealed SHA256 bh body t))) rs) us vs n).
Proof.
  unfold resume, set_chain; cbn -[resolvePromise].
  rewrite resolvePromise_pending. unfold sealed.
  by rewrite !append_assoc.
Qed.

Lemma step_cons k v c h ps js us vs n :
  step SHA256 (mkState c h ps ((k, v) :: js) us vs n)
  = resume SHA256 k v (mkState c h ps js us vs n).
Proof. reflexivity. Qed.

Lemma run_add n m st : run SHA256 (n + m) st = run SHA256 m (run SHA256 n st).
Proof.
  revert st. induction n as [|n IH]; intros st; [done|].
  cbn [Nat.add run]. destruct (step SHA256 st) as [st'|] eqn:E; [apply IH|].
  destruct m as [|m]; [done|]. cbn [run]. by rewrite E.
Qed.

(** An append on an idle ledger: the state [_addBlock] leaves, with the
    reaction [k] of the caller registered on its promise, and the two jobs
    that follow. *)
Lemma addBlock_run body k c h ps us vs n :
  run SHA256 2
    (onFulfilled (length ps) k
       (mkState c h (ps ++ [Pending []; Fulfilled (VNumber h)])
          [(addBlock_afterHeight body (timeString (clock n)) (length ps), VNumber h)]
          us vs (S n)))
  = mkState (c ++ [sealed SHA256 (h + 1) body (timeString (clock n))]) (h + 1)
      (ps ++ [Fulfilled (VBlock (sealed SHA256 (h + 1) body (timeString (clock n))));
              Fulfilled (VNumber h);
              Fulfilled (match blockAtHeight h c with
                         | Some b' => VBlock b'
                         | None => VNull
                         end)])
      [(k, VBlock (sealed SHA256 (h + 1) body (timeString (clock n))))] us vs (S n).
Proof.
  rewrite onFulfilled_pending. state_simpl.
  cbn [run]. rewrite step_cons, resume_afterHeight. state_simpl.
  rewrite <- (app_assoc ps). cbn [app].
  by rewrite step_cons, resume_afterPrevious.
Qed.

(** [submitStar] on an idle ledger when the verifier returns: three jobs
    later a block is pushed, whatever the verifier and the time check said;
    the promise returned is rejected by the time check or else fulfilled,
    in both cases with undefined. *)
Lemma submitStar_run address message signature star r c h ps us vs n :
  verify message address signature = JS.Normal r ->
  fst (submitStar clock verify Block_body address message signature star
         (mkState c h ps [] us vs n)) = length ps /\
  run SHA256 3
    (snd (submitStar clock verify Block_body address message signature star
            (mkState c h ps [] us vs n)))
  = mkState
      (c ++ [sealed SHA256 (h + 1) (Block_body message) (timeString (clock (S n)))])
      (h + 1)
      (ps ++ [if expired (clock n) message
              then Rejected VUndefined else Fulfilled VUndefined;
              Fulfilled (VBlock (sealed SHA256 (h + 1) (Block_body message)
                                   (timeString (clock (S n)))));
              Fulfilled (VNumber h);
              Fulfilled (match blockAtHeight h c with
                         | Some b' => VBlock b'
                         | None => VNull
                         end)])
      [] us (vs ++ [(message, address, signature)]) (S (S n)).
Proof.
  intros Hv. unfold submitStar. rewrite newPromise_eq.
  unfold getTime. state_simpl. fold (expired (clock n) message). rewrite Hv.
  set (x := if expired (clock n) message then Rejected VUndefined else Pending []).
  assert ((if expired (clock n) message
           then rejectPromise (length ps) VUndefined
                  (mkState c h (ps ++ [Pending []]) [] us vs (S n))
           else mkState c h (ps ++ [Pending []]) [] us vs (S n))
          = mkState c h (ps ++ [x]) [] us vs (S n)) as ->.
  { subst x. destruct (expired (clock n) message); [|done].
    by rewrite rejectPromise_fresh. }
  state_simpl. rewrite _addBlock_eq. state_simpl. split; [done|].
  change 3%nat with (2 + 1)%nat. rewrite run_add.
  rewrite (addBlock_run (Block_body message) (submitStar_afterAdd (length ps))
             c h (ps ++ [x]) us (vs ++ [(message, address, signature)]) (S n)).
  cbn [run]. rewrite step_cons. cbn [resume].
  rewrite <- (app_assoc ps). cbn [app]. subst x.
  destruct (expired (clock n) message).
  - by rewrite resolvePromise_rejected.
  - by rewrite resolvePromise_pending.
Qed.

(** When the verifier throws, the executor stops there: nothing is queued
    and the promise returned stays as the time check left it. *)
Lemma submitStar_throw address message signature star e c h ps us vs n :
  verify message address signature = JS.Throw e ->
  submitStar clock verify Block_body address message signature star
    (mkState c h ps [] us vs n)
  = (length ps,
     mkState c h
       (ps ++ [if expired (clock n) message then Rejected VUndefined else Pending []])
       [] (us ++ [VError e]) (vs ++ [(message, address, signature)]) (S n)).
Proof.
  intros Hv. unfold submitStar. rewrite newPromise_eq.
  unfold getTime. state_simpl. fold (expired (clock n) message). rewrite Hv.
  destruct (expired (clock n) message); [|done].
  by rewrite rejectPromise_fresh.
Qed.

(** The constructor and the three jobs it leaves behind. *)
Lemma constructor_eq :
  constructor clock Block_body
  = mkState [] (-1)
      [Pending []; Pending [initializeChain_afterAdd 0]; Fulfilled (VNumber (-1))]
      [(addBlock_afterHeight (Block_body "Genesis Block") (timeString (clock 0)) 1,
        VNumber (-1))]
      [] [] 1.
Proof. reflexivity. Qed.

Lemma constructor_run :
  run SHA256 3 (constructor clock Block_body)
  = mkState [sealed SHA256 0 (Block_body "Genesis Block") (timeString (clock 0))] 0
      [Fulfilled VUndefined;
       Fulfilled (VBlock (sealed SHA256 0 (Block_body "Genesis Block")
                            (timeString (clock 0))));
       Fulfilled (VNumber (-1)); Fulfilled VNull]
      [] [] [] 1.
Proof.
  unfold constructor, initializeChain. rewrite newPromise_eq.
  state_simpl. cbn [Z.eqb]. rewrite _addBlock_eq. state_simpl.
  change 3%nat with (2 + 1)%nat. rewrite run_add.
  pose proof (addBlock_run (Block_body "Genesis Block")
                (initializeChain_afterAdd 0) [] (-1) [Pending []] [] [] 0) as E.
  cbn [app length] in E. cbn [Z.add] in E.
  change (-1 + 1)%Z with 0%Z in E.
  cbn [Z.eqb Pos.eqb length snd fst]. rewrite E. reflexivity.
Qed.

End Equations.

(** ** Submissions *)

Section Submission.

Variable clock : nat -> Z.
Variable SHA256 : string -> string.
Variable verify : string -> string -> string -> JS.Completion bool.
Variable Block_body : string -> string.

(** C1, as the code has it: when [bitcoinMessage.verify] returns false for
    (message, address, signature), [submitStar] on an idle ledger does not
    fail with an invalid-signature error.  The result of the verifier is
    dropped: three jobs later the chain has one more block, [this.height]
    is one higher, and the promise returned is fulfilled with undefined
    (or rejected with undefined when the challenge is also too old). *)
Theorem submitStar_drops_verifier_result address message signature star st :
  idle st ->
  verify message address signature = JS.Normal false ->
  let out := submitStar clock verify Block_body address message signature star st in
  let st' := run SHA256 3 (snd out) in
  idle st' /\
  chain st' = chain st ++ [sealed SHA256 (height st + 1) (Block_body message)
                             (timeString (clock (S (clockReads st))))] /\
  height st' = (height st + 1)%Z /\
  promiseState (fst out) st'
  = Some (if expired (clock (clockReads st)) message
          then Rejected VUndefined else Fulfilled VUndefined).
Proof.
  destruct st as [c h ps js us vs n]. unfold idle; cbn [jobs]. intros -> Hv.
  destruct (submitStar_run clock SHA256 verify Block_body
              address message signature star false c h ps us vs n Hv) as [Hp Hr].
  cbn zeta. rewrite Hr, Hp. unfold promiseState. state_simpl.
  repeat split. apply store_lookup.
Qed.

(** C2, as the code has it: when the challenge is older than five minutes,
    [submitStar] rejects its promise with undefined (no reason is given)
    and goes on: the verifier is called, and when it returns the block is
    appended and [this.height] is one higher. *)
Theorem submitStar_expired_goes_on address message signature star r st :
  idle st ->
  expired (clock (clockReads st)) message = true ->
  verify message address signature = JS.Normal r ->
  let out := submitStar clock verify Block_body address message signature star st in
  let st' := run SHA256 3 (snd out) in
  promiseState (fst out) st' = Some (Rejected VUndefined) /\
  verifyCalls st' = verifyCalls st ++ [(message, address, signature)] /\
  chain st' = chain st ++ [sealed SHA256 (height st + 1) (Block_body message)
                             (timeString (clock (S (clockReads st))))] /\
  height st' = (height st + 1)%Z.
Proof.
  destruct st as [c h ps js us vs n]. unfold idle; cbn [jobs clockReads].
  intros -> He Hv.
  destruct (submitStar_run clock SHA256 verify Block_body
              address message signature star r c h ps us vs n Hv) as [Hp Hr].
  cbn zeta. rewrite Hr, Hp. unfold promiseState. state_simpl.
  rewrite He. repeat split. apply store_lookup.
Qed.

(** C5, as the code has it: for a challenge in time and a signature the
    verifier accepts, [submitStar] on an idle ledger appends one block and
    [this.height] is one higher, but the promise returned is fulfilled with
    undefined, not with the block appended. *)
Theorem submitStar_resolves_undefined address message signature star st :
  idle st ->
  expired (clock (clockReads st)) message = false ->
  verify message address signature = JS.Normal true ->
  let out := submitStar clock verify Block_body address message signature star st in
  let st' := run SHA256 3 (snd out) in
  let block := sealed SHA256 (height st + 1) (Block_body message)
                 (timeString (clock (S (clockReads st)))) in
  idle st' /\
  chain st' = chain st ++ [block] /\
  height st' = (height st + 1)%Z /\
  promiseState (fst out) st' = Some (Fulfilled VUndefined) /\
  promiseState (fst out) st' <> Some (Fulfilled (VBlock block)).
Proof.
  destruct st as [c h ps js us vs n]. unfold idle; cbn [jobs clockReads].
  intros -> He Hv.
  destruct (submitStar_run clock SHA256 verify Block_body
              address message signature star true c h ps us vs n Hv) as [Hp Hr].
  cbn zeta. rewrite Hr, Hp. unfold promiseState. state_simpl.
  rewrite He, store_lookup. by repeat split.
Qed.

End Submission.

(** ** Ledgers used one call at a time *)

Section Ledger.

Variable clock : nat -> Z.
Variable SHA256 : string -> string.
Variable verify : string -> string -> string -> JS.Completion bool.
Variable Block_body : string -> string.

Lemma run_idle n st : idle st -> run SHA256 n st = st.
Proof.
  unfold idle. intros Hj. destruct n as [|n]; [done|].
  cbn [run]. unfold step. by rewrite Hj.
Qed.

Lemma requestMessageOwnershipVerification_eq address c h ps js us vs n :
  requestMessageOwnershipVerification clock address (mkState c h ps js us vs n)
  = (length ps,
     mkState c h
       (ps ++ [Fulfilled (VString (address +:+ ":" +:+ timeString (clock n)
                                     +:+ ":starRegistry"))])
       js us vs (S n)).
Proof.
  unfold requestMessageOwnershipVerification. rewrite newPromise_eq.
  unfold getTime. state_simpl. rewrite resolvePromise_pending.
  state_simpl. by rewrite app_nil_r.
Qed.

Lemma consistent_push c h ps js us vs n ps' js' us' vs' n' body t :
  consistent (mkState c h ps js us vs n) ->
  consistent (mkState (c ++ [sealed SHA256 (h + 1) body t]) (h + 1) ps' js' us' vs' n').
Proof.
  unfold consistent; cbn [chain height]. intros [Hh Hc]. split.
  - rewrite length_app. cbn [length]. lia.
  - intros i b Hi. apply lookup_app_Some in Hi as [Hi|[Hlen Hi]]; [by apply Hc|].
    destruct (i - length c)%nat as [|k] eqn:Hk; [|by destruct k].
    cbn in Hi. injection Hi as <-. cbn [sealed Block.height]. lia.
Qed.

Lemma settled_frame c h ps js us vs n ps' us' vs' n' :
  settled clock SHA256 Block_body (mkState c h ps js us vs n) ->
  settled clock SHA256 Block_body (mkState c h ps' js us' vs' n').
Proof. by unfold settled, idle, consistent. Qed.

Lemma sequential_settled st :
  sequential clock SHA256 verify Block_body st -> settled clock SHA256 Block_body st.
Proof.
  induction 1 as [|st address message signature star _ IH
                  |st address _ IH|st _ IH|st h _ IH].
  - rewrite constructor_run. unfold settled, idle, consistent; cbn [chain height jobs].
    repeat split.
    + intros [|[|i]] b Hi; [|done..]. by injection Hi as <-.
    + by repeat constructor.
  - destruct st as [c h ps js us vs n].
    assert (js = []) as -> by apply IH.
    destruct (verify message address signature) as [r|e] eqn:Hv.
    + destruct (submitStar_run clock SHA256 verify Block_body
                  address message signature star r c h ps us vs n Hv) as [_ ->].
      destruct IH as (_ & Hc & Hp & Hg). repeat split.
      * eapply consistent_push, Hc.
      * eapply consistent_push, Hc.
      * cbn [chain] in *. apply Forall_app. split; [done|]. by repeat constructor.
      * cbn [chain] in *. by apply lookup_app_l_Some.
    + rewrite (submitStar_throw clock verify Block_body
                 address message signature star e c h ps us vs n Hv).
      cbn [snd]. rewrite run_idle by done. by eapply settled_frame.
  - destruct st as [c h ps js us vs n].
    rewrite requestMessageOwnershipVerification_eq. by eapply settled_frame.
  - destruct st as [c h ps js us vs n].
    rewrite getChainHeight_eq. by eapply settled_frame.
  - destruct st as [c h' ps js us vs n].
    rewrite getBlockByHeight_eq. by eapply settled_frame.
Qed.

End Ledger.

(** ** The chain of a ledger *)

Section Chain.

Variable clock : nat -> Z.
Variable SHA256 : string -> string.
Variable verify : string -> string -> string -> JS.Completion bool.
Variable Block_body : string -> string.

(** C3, as the code has it: [_addBlock] awaits the property [hash] of a
    promise, which is undefined, so no block ever records the hash of its
    predecessor.  In a ledger used one call at a time every block has
    [previousBlockHash] undefined; for a block at position i + 1 this is
    not the hash of the block at position i. *)
Theorem previousBlockHash_is_undefined st (i : nat) (b b0 : Block.t) :
  sequential clock SHA256 verify Block_body st ->
  chain st !! S i = Some b ->
  chain st !! i = Some b0 ->
  Block.previousBlockHash b = JS.Undefined /\
  Block.previousBlockHash b <> JS.Str (Block.hash b0).
Proof.
  intros Hs Hb _. apply sequential_settled in Hs as (_ & _ & Hp & _).
  rewrite Forall_lookup in Hp. rewrite (Hp _ _ Hb). by split.
Qed.

(** The constructor starts the creation of the genesis
    block and returns before it is done: at that moment [this.height] is -1,
    the chain is empty and one job is queued.  Three jobs later the ledger
    is idle, [this.height] is 0 and the chain is the genesis block alone,
    at height 0 with the body of [{data: 'Genesis Block'}]; a second
    [initializeChain] then adds nothing. *)
Theorem genesis_after_three_jobs :
  let st0 := constructor clock Block_body in
  let st := run SHA256 3 st0 in
  let genesis := sealed SHA256 0 (Block_body "Genesis Block") (timeString (clock 0)) in
  (height st0 = (-1)%Z /\ chain st0 = [] /\ length (jobs st0) = 1%nat) /\
  (idle st /\ height st = 0%Z /\ chain st = [genesis] /\
   Block.height genesis = 0%Z /\ Block.body genesis = Block_body "Genesis Block") /\
  (chain (snd (initializeChain clock Block_body st)) = [genesis] /\
   idle (snd (initializeChain clock Block_body st))).
Proof.
  cbn zeta. rewrite constructor_run. by repeat split.
Qed.

Lemma blockAtHeight_offset (c : list Block.t) (off h : Z) :
  (forall (i : nat) (b : Block.t),
     c !! i = Some b -> Block.height b = (off + Z.of_nat i)%Z) ->
  blockAtHeight h c
  = if decide (off <= h)%Z then c !! Z.to_nat (h - off) else None.
Proof.
  revert off. induction c as [|b c IH]; intros off Hc.
  - unfold blockAtHeight. cbn. by destruct (decide _).
  - unfold blockAtHeight in *. rewrite filter_cons.
    pose proof (Hc 0%nat b eq_refl) as Hb. rewrite Z.add_0_r in Hb.
    destruct (decide (Block.height b = h)) as [Heq|Hne].
    + subst h. rewrite Hb. rewrite decide_True by lia.
      by rewrite Z.sub_diag.
    + rewrite (IH (off + 1)%Z).
      2:{ intros i b' Hi. rewrite (Hc (S i) b' Hi). lia. }
      destruct (decide (off + 1 <= h)%Z) as [Hle|Hgt].
      * rewrite decide_True by lia.
        replace (Z.to_nat (h - off)) with (S (Z.to_nat (h - (off + 1)))) by lia.
        done.
      * destruct (decide (off <= h)%Z); [lia|done].
Qed.

(** In a ledger whose blocks sit at the position of their height and
    whose [this.height] is the last position, [getBlockByHeight(h)] leaves
    the ledger as it is and fulfils its promise with the block at position
    [h] when 0 <= h <= this.height, and with null for every other [h]: no
    promise is rejected.  [getBlockByHeight(this.height)] gives the last
    block and [getBlockByHeight(this.height + 1)] gives null. *)
Theorem getBlockByHeight_positional st (h : Z) :
  consistent st ->
  let out := getBlockByHeight h st in
  (chain (snd out) = chain st /\ height (snd out) = height st /\
   jobs (snd out) = jobs st /\ unhandled (snd out) = unhandled st) /\
  ((0 <= h <= height st)%Z ->
   exists b, chain st !! Z.to_nat h = Some b /\
             promiseState (fst out) (snd out) = Some (Fulfilled (VBlock b))) /\
  (~ (0 <= h <= height st)%Z ->
   promiseState (fst out) (snd out) = Some (Fulfilled VNull)) /\
  (forall b, last (chain st) = Some b ->
     promiseState (fst (getBlockByHeight (height st) st))
                  (snd (getBlockByHeight (height st) st))
     = Some (Fulfilled (VBlock b))) /\
  promiseState (fst (getBlockByHeight (height st + 1) st))
               (snd (getBlockByHeight (height st + 1) st))
  = Some (Fulfilled VNull).
Proof.
  destruct st as [c hh ps js us vs n]. unfold consistent; cbn [chain height].
  intros [Hh Hc]. cbn zeta.
  assert (forall x, promiseState (fst (getBlockByHeight x (mkState c hh ps js us vs n)))
                      (snd (getBlockByHeight x (mkState c hh ps js us vs n)))
                    = Some (Fulfilled
                              match (if decide (0 <= x)%Z then c !! Z.to_nat x else None) with
                              | Some b => VBlock b
                              | None => VNull
                              end)) as Hget.
  { intros x. rewrite getBlockByHeight_eq. unfold promiseState. state_simpl.
    rewrite store_lookup. rewrite (blockAtHeight_offset c 0 x).
    - by rewrite Z.sub_0_r.
    - intros i b Hi. rewrite (Hc i b Hi). lia. }
  split; [by rewrite getBlockByHeight_eq|].
  split; [|split; [|split]].
  - intros [H0 H1]. destruct (lookup_lt_is_Some_2 c (Z.to_nat h)) as [b Hb]; [lia|].
    exists b. split; [done|]. rewrite Hget, decide_True by done. by rewrite Hb.
  - intros Hout. rewrite Hget. destruct (decide (0 <= h)%Z); [|done].
    rewrite (lookup_ge_None_2 c (Z.to_nat h)) by lia. done.
  - intros b Hb. rewrite Hget. rewrite last_lookup in Hb.
    destruct c as [|b0 c']; [done|]. cbn [length] in *.
    rewrite decide_True by lia.
    replace (Z.to_nat hh) with (Init.Nat.pred (S (length c'))) by lia.
    by rewrite Hb.
  - rewrite Hget. destruct (decide (0 <= hh + 1)%Z); [|done].
    rewrite (lookup_ge_None_2 c (Z.to_nat (hh + 1))) by lia. done.
Qed.

End Chain.

(** ** The challenge message *)

Section Challenge.

Variable clock : nat -> Z.

Lemma pretty_N_go_append (x : N) (s : string) :
  pretty_N_go x s = pretty_N_go x EmptyString +:+ s.
Proof.
  revert s. induction (N.lt_wf_0 x) as [x _ IH]. intros s.
  destruct (decide (x = 0)%N) as [->|Hx]; [done|].
  assert (x `div` 10 < x)%N as Hlt by (apply N.div_lt; lia).
  rewrite !(pretty_N_go_step x) by lia.
  rewrite (IH _ Hlt (String _ s)), (IH _ Hlt (String _ EmptyString)).
  by rewrite append_assoc.
Qed.

Lemma pretty_N_thousands (x : N) :
  (1000 <= x)%N ->
  exists d : string,
    String.length d = 3%nat /\ pretty x = pretty (x `div` 1000)%N +:+ d.
Proof.
  intros Hx. unfold pretty, pretty_N.
  assert (0 < x `div` 1000)%N as Hq by (apply N.div_str_pos; lia).
  rewrite !decide_False by lia.
  assert (0 < x `div` 10)%N by (apply N.div_str_pos; lia).
  assert (0 < (x `div` 10) `div` 10)%N.
  { rewrite N.Div0.div_div by lia. apply N.div_str_pos; lia. }
  rewrite (pretty_N_go_step x) by lia.
  rewrite (pretty_N_go_step (x `div` 10)) by lia.
  rewrite (pretty_N_go_step ((x `div` 10) `div` 10)) by lia.
  rewrite !N.Div0.div_div by lia. change (10 * 10 * 10)%N with 1000%N.
  rewrite pretty_N_go_append. eexists. split; [|reflexivity]. done.
Qed.

Lemma slice_last_three (s d : string) :
  String.length d = 3%nat -> JS.slice (s +:+ d) 0 (-3) = s.
Proof.
  intros Hd. unfold JS.slice, JS.slice_index. rewrite append_length, Hd.
  cbn [Z.ltb Z.compare].
  replace (Z.to_nat (Z.min 0 _)) with 0%nat by lia.
  replace (Z.to_nat _) with (String.length s) by lia.
  apply substring_prefix.
Qed.

(** From one second after the epoch on, the time string is the clock
    reading in whole seconds. *)
Lemma timeString_seconds (ms : Z) :
  (1000 <= ms)%Z -> timeString ms = pretty (ms / 1000)%Z.
Proof.
  intros Hms. unfold timeString.
  destruct ms as [|p|p]; [lia| |lia].
  destruct (pretty_N_thousands (N.pos p)) as (d & Hd & Hp); [lia|].
  assert (pretty (Z.pos p) = pretty (N.pos p)) as -> by done.
  rewrite Hp, slice_last_three by done.
  assert (0 < Z.pos p / 1000)%Z by (apply Z.div_str_pos; lia).
  replace (Z.pos p / 1000)%Z with (Z.of_N (N.pos p `div` 1000)).
  2:{ rewrite N2Z.inj_div. done. }
  destruct (N.pos p `div` 1000)%N as [|q] eqn:Hq; [|done].
  assert (0 < N.pos p `div` 1000)%N by (apply N.div_str_pos; lia). lia.
Qed.

(** C9: when the clock reads [ms], at least one second after the epoch,
    [requestMessageOwnershipVerification(address)] fulfils its promise with
    the address, ":", the clock reading in whole seconds, ":" and the tag
    "starRegistry".  It leaves the chain, [this.height] and the job queue
    as they are, so the message depends on the address and the clock
    reading alone. *)
Theorem requestMessage_format address st :
  (1000 <= clock (clockReads st))%Z ->
  let out := requestMessageOwnershipVerification clock address st in
  promiseState (fst out) (snd out)
  = Some (Fulfilled (VString (address +:+ ":"
                                +:+ pretty (clock (clockReads st) / 1000)%Z
                                +:+ ":" +:+ "starRegistry"))) /\
  chain (snd out) = chain st /\ height (snd out) = height st /\
  jobs (snd out) = jobs st /\ unhandled (snd out) = unhandled st.
Proof.
  destruct st as [c h ps js us vs n]. cbn [clockReads]. intros Hms. cbn zeta.
  rewrite requestMessageOwnershipVerification_eq. unfold promiseState. state_simpl.
  rewrite store_lookup, timeString_seconds by done. by repeat split.
Qed.

End Challenge.

(** ** Queries that do not answer *)

Section Queries.

Variable SHA256 : string -> string.

(** C6, as the code has it: the executor of [getStarsByWalletAddress] reads
    the unbound identifier [hash] before anything else, so for every address
    and every ledger the promise is rejected with a ReferenceError: no block
    is scanned (no job is queued) and no star is returned. *)
Theorem getStarsByWalletAddress_rejects address st :
  let out := getStarsByWalletAddress address st in
  promiseState (fst out) (snd out)
  = Some (Rejected (VError (JS.ReferenceError "hash is not defined"))) /\
  jobs (snd out) = jobs st /\ chain (snd out) = chain st.
Proof.
  destruct st as [c h ps js us vs n]. cbn zeta.
  unfold getStarsByWalletAddress. rewrite newPromise_eq.
  change (identifier getStarsByWalletAddress_scope "hash")
    with (@JS.Throw string (JS.ReferenceError "hash is not defined")).
  cbn iota. rewrite (rejectPromise_fresh c h ps []).
  unfold promiseState. state_simpl. by rewrite store_lookup.
Qed.

(** C4, as the code has it: [validateChain] calls [this.getBlockHeight],
    which the class does not define.  The TypeError leaves the async
    executor unhandled, no block is visited, and the promise returned is
    never settled: no list of errors, empty or not, is ever returned. *)
Theorem validateChain_never_settles st :
  idle st ->
  exists pV st',
    validateChain st = Some (pV, st') /\
    unhandled st'
    = unhandled st ++ [VError (JS.TypeError "this.getBlockHeight is not a function")] /\
    chain st' = chain st /\
    idle st' /\
    forall n, promiseState pV (run SHA256 n st') = Some (Pending []).
Proof.
  destruct st as [c h ps js us vs n]. unfold idle; cbn [jobs]. intros ->.
  eexists _, _. split; [reflexivity|]. state_simpl. repeat split.
  intros m. rewrite run_idle by done. unfold promiseState. state_simpl.
  apply store_lookup.
Qed.

Lemma blockAtHeight_elem_of i c b : blockAtHeight i c = Some b -> b ∈ c.
Proof.
  unfold blockAtHeight. intros Hb. apply head_Some_elem_of in Hb.
  by apply list_elem_of_filter in Hb as [_ ?].
Qed.

Lemma searching_forEach hash pH c (l : list Z) st :
  searching hash pH c st ->
  searching hash pH c
    (foldl (fun st i => let '(p, st) := getBlockByHeight i st in
                        onFulfilled p (getBlockByHash_onBlock hash pH) st) st l).
Proof.
  revert st. induction l as [|i l IH]; intros st Hs; [done|].
  cbn [foldl]. apply IH. clear IH.
  destruct st as [c' h ps js us vs n]. destruct Hs as (Hc & Hp & Hj).
  cbn [chain promises jobs] in *. subst c'.
  rewrite getBlockByHeight_eq. rewrite (onFulfilled_fulfilled c h ps []).
  repeat split; cbn [chain promises jobs].
  - by apply lookup_app_l_Some.
  - apply Forall_app. split; [done|]. constructor; [|done]. split; [done|].
    cbn [snd]. destruct (blockAtHeight i c) as [b|] eqn:Hb; [|by left].
    right. exists b. split; [|done]. by eapply blockAtHeight_elem_of.
Qed.

Lemma searching_step hash pH c st j js :
  (forall b, b ∈ c -> Block.hash b <> hash) ->
  searching hash pH c st ->
  jobs st = j :: js ->
  exists st', step SHA256 st = Some st' /\ searching hash pH c st' /\ jobs st' = js.
Proof.
  intros Hmiss (Hc & Hp & Hj) Hjs. destruct st as [c' h ps js' us vs n].
  cbn [chain promises jobs] in *. subst c' js'.
  apply Forall_cons in Hj as [[Hk Hv] Hj]. destruct j as [k v].
  cbn [fst snd] in *. subst k. rewrite step_cons.
  destruct Hv as [->|(b & Hb & ->)].
  - eexists. split; [reflexivity|]. by repeat split.
  - cbn [resume]. destruct (String.eqb_spec (Block.hash b) hash) as [Heq|Hne].
    + by destruct (Hmiss b Hb).
    + eexists. split; [reflexivity|]. by repeat split.
Qed.

Lemma searching_run hash pH c n st :
  (forall b, b ∈ c -> Block.hash b <> hash) ->
  searching hash pH c st ->
  searching hash pH c (run SHA256 n st) /\
  (length (jobs st) <= n -> idle (run SHA256 n st))%nat.
Proof.
  intros Hmiss. revert st. induction n as [|n IH]; intros st Hs.
  - split; [done|]. unfold idle. cbn [run]. destruct (jobs st); [done|cbn; lia].
  - cbn [run]. destruct (jobs st) as [|j js] eqn:Hjs.
    + unfold step. rewrite Hjs. by split.
    + destruct (searching_step hash pH c st j js Hmiss Hs Hjs) as (st' & -> & Hs' & Hjs').
      destruct (IH st' Hs') as [? Hidle]. split; [done|].
      intros Hlen. apply Hidle. rewrite Hjs'. cbn [length] in Hlen. lia.
Qed.

(** C10: on an idle ledger, for every hash that no block of the chain has,
    the promise of [getBlockByHash] is pending after any number of jobs,
    although the queue runs empty: [resolve] is only called on a match and
    [reject] never, so the promise is never settled.  The chain does not
    change meanwhile. *)
Theorem getBlockByHash_missing_never_settles hash st :
  idle st ->
  (forall b, b ∈ chain st -> Block.hash b <> hash) ->
  let out := getBlockByHash hash st in
  (forall n, promiseState (fst out) (run SHA256 n (snd out)) = Some (Pending [])) /\
  (exists n, idle (run SHA256 n (snd out))) /\
  (forall n, chain (run SHA256 n (snd out)) = chain st).
Proof.
  destruct st as [c h ps js us vs n]. unfold idle; cbn [jobs chain].
  intros -> Hmiss. cbn zeta.
  unfold getBlockByHash. rewrite newPromise_eq, getChainHeight_eq.
  rewrite (onFulfilled_fulfilled c h (ps ++ [Pending []]) []).
  rewrite <- (app_assoc ps). cbn [app fst snd].
  set (st0 := mkState c h (ps ++ [Pending []; Fulfilled (VNumber h)]) [] us vs n).
  assert (searching hash (length ps) c st0) as Hs0.
  { repeat split; [|done]. apply store_lookup. }
  set (st1 := forEachHeight 0 (h + 1) (getBlockByHash_onBlock hash (length ps)) st0).
  assert (searching hash (length ps) c st1) as Hs1 by by apply searching_forEach.
  assert (forall m, run SHA256 (S m)
            (mkState c h (ps ++ [Pending []; Fulfilled (VNumber h)])
               [(getBlockByHash_onHeight hash (length ps), VNumber h)] us vs n)
          = run SHA256 m st1) as Hrun by done.
  split; [|split].
  - intros [|m].
    + cbn [run]. unfold promiseState. cbn [promises]. apply store_lookup.
    + rewrite Hrun. by apply (searching_run hash (length ps) c m st1 Hmiss Hs1).
  - exists (S (length (jobs st1))). rewrite Hrun.
    by apply (searching_run hash (length ps) c _ st1 Hmiss Hs1).
  - intros [|m]; [done|]. rewrite Hrun.
    by apply (searching_run hash (length ps) c m st1 Hmiss Hs1).
Qed.

End Queries.

(** ** The operations on JavaScript values, on examples *)

Example parseInt_seconds : JS.parseInt "1600000000" = JS.Int 1600000000.
Proof. reflexivity. Qed.
Example parseInt_prefix : JS.parseInt "  -12ab" = JS.Int (-12).
Proof. reflexivity. Qed.
Example parseInt_empty : JS.parseInt EmptyString = JS.NaN.
Proof. reflexivity. Qed.
Example parseInt_hex : JS.parseInt "0x1f" = JS.Int 31.
Proof. reflexivity. Qed.
Example split_message :
  JS.split ":" "a:12:starRegistry" = ["a"; "12"; "starRegistry"].
Proof. reflexivity. Qed.
Example split_no_separator : JS.split ":" "abc" = ["abc"].
Proof. reflexivity. Qed.
Example slice_milliseconds : JS.slice (pretty 1600000000123%Z) 0 (-3) = "1600000000".
Proof. reflexivity. Qed.
Example slice_short : JS.slice (pretty 12%Z) 0 (-3) = EmptyString.
Proof. reflexivity. Qed.
Example add_concatenates :
  JS.add (JS.add (JS.Num (JS.Int 1)) (JS.Str "ab")) JS.Undefined = JS.Str "1abundefined".
Proof. reflexivity. Qed.
Example member_getBlockHeight :
  member "getBlockHeight" = JS.Throw (JS.TypeError "this.getBlockHeight is not a function").
Proof. reflexivity. Qed.
Example member_getChainHeight : member "getChainHeight" = JS.Normal "getChainHeight".
Proof. reflexivity. Qed.

(** ** The demo ledger *)

Lemma demo_ledger_sequential :
  sequential Demo.clock Demo.SHA256 Demo.verify Demo.Block_body Demo.ledger.
Proof. apply sequential_new. Qed.

Lemma demo_submit_sequential message signature :
  sequential Demo.clock Demo.SHA256 Demo.verify Demo.Block_body
    (snd (Demo.submit message signature Demo.ledger)).
Proof.
  unfold Demo.submit.
  rewrite (surjective_pairing (submitStar _ _ _ _ _ _ _ _)). cbn [snd].
  apply sequential_submitStar, sequential_new.
Qed.

(** A submission made as soon as the constructor returns, before its jobs
    have run: both appends read [this.height] as -1, and the chain ends
    with two blocks of height 0 while [this.height] is 1. *)
Example submit_before_genesis :
  let st := run Demo.SHA256 10
              (snd (submitStar Demo.clock Demo.verify Demo.Block_body
                      "addr" Demo.freshMessage "good" VUndefined
                      (constructor Demo.clock Demo.Block_body))) in
  idle st /\ map Block.height (chain st) = [0%Z; 0%Z] /\ height st = 1%Z.
Proof. vm_compute. by repeat split. Qed.

(** C1 on the demo ledger: the signature "bad" is refused by the verifier,
    the challenge is fresh, and the submission adds block 1 all the same. *)
Lemma submitStar_drops_verifier_result_witness :
  idle Demo.ledger /\
  Demo.verify Demo.freshMessage "addr" "bad" = JS.Normal false /\
  height (run Demo.SHA256 3
            (snd (submitStar Demo.clock Demo.verify Demo.Block_body
                    "addr" Demo.freshMessage "bad" VUndefined Demo.ledger))) = 1%Z /\
  promiseState 4
    (run Demo.SHA256 3
       (snd (submitStar Demo.clock Demo.verify Demo.Block_body
               "addr" Demo.freshMessage "bad" VUndefined Demo.ledger)))
  = Some (Fulfilled VUndefined).
Proof.
  split; [reflexivity|]. split; [reflexivity|].
  destruct (submitStar_drops_verifier_result Demo.clock Demo.SHA256 Demo.verify
              Demo.Block_body "addr" Demo.freshMessage "bad" VUndefined Demo.ledger
              eq_refl eq_refl) as (_ & _ & Hh & Hp).
  split; [exact Hh | exact Hp].
Defined.

(** C2 on the demo ledger: a challenge one hour old, signed well. *)
Lemma submitStar_expired_goes_on_witness :
  idle Demo.ledger /\
  expired (Demo.clock (clockReads Demo.ledger)) Demo.oldMessage = true /\
  Demo.verify Demo.oldMessage "addr" "good" = JS.Normal true /\
  promiseState 4
    (run Demo.SHA256 3
       (snd (submitStar Demo.clock Demo.verify Demo.Block_body
               "addr" Demo.oldMessage "good" VUndefined Demo.ledger)))
  = Some (Rejected VUndefined) /\
  height (run Demo.SHA256 3
            (snd (submitStar Demo.clock Demo.verify Demo.Block_body
                    "addr" Demo.oldMessage "good" VUndefined Demo.ledger))) = 1%Z.
Proof.
  split; [reflexivity|]. split; [reflexivity|]. split; [reflexivity|].
  destruct (submitStar_expired_goes_on Demo.clock Demo.SHA256 Demo.verify
              Demo.Block_body "addr" Demo.oldMessage "good" VUndefined true Demo.ledger
              eq_refl eq_refl eq_refl) as (Hp & _ & _ & Hh).
  split; [exact Hp | exact Hh].
Defined.

(** C5 on the demo ledger: a fresh challenge, signed well. *)
Lemma submitStar_resolves_undefined_witness :
  idle Demo.ledger /\
  expired (Demo.clock (clockReads Demo.ledger)) Demo.freshMessage = false /\
  Demo.verify Demo.freshMessage "addr" "good" = JS.Normal true /\
  promiseState 4
    (run Demo.SHA256 3
       (snd (submitStar Demo.clock Demo.verify Demo.Block_body
               "addr" Demo.freshMessage "good" VUndefined Demo.ledger)))
  = Some (Fulfilled VUndefined) /\
  height (run Demo.SHA256 3
            (snd (submitStar Demo.clock Demo.verify Demo.Block_body
                    "addr" Demo.freshMessage "good" VUndefined Demo.ledger))) = 1%Z.
Proof.
  split; [reflexivity|]. split; [reflexivity|]. split; [reflexivity|].
  destruct (submitStar_resolves_undefined Demo.clock Demo.SHA256 Demo.verify
              Demo.Block_body "addr" Demo.freshMessage "good" VUndefined Demo.ledger
              eq_refl eq_refl eq_refl) as (_ & _ & Hh & Hp & _).
  split; [exact Hp | exact Hh].
Defined.

(** C3 on the demo ledger after one submission: block 1 does not record the
    hash of the genesis block. *)
Lemma previousBlockHash_is_undefined_witness :
  chain (snd (Demo.submit Demo.freshMessage "good" Demo.ledger)) !! 1%nat
  = Some Demo.block1 /\
  chain (snd (Demo.submit Demo.freshMessage "good" Demo.ledger)) !! 0%nat
  = Some Demo.genesis /\
  Block.previousBlockHash Demo.block1 = JS.Undefined /\
  Block.previousBlockHash Demo.block1 <> JS.Str (Block.hash Demo.genesis).
Proof.
  assert (chain (snd (Demo.submit Demo.freshMessage "good" Demo.ledger)) !! 1%nat
          = Some Demo.block1) as H1 by (vm_compute; reflexivity).
  assert (chain (snd (Demo.submit Demo.freshMessage "good" Demo.ledger)) !! 0%nat
          = Some Demo.genesis) as H0 by (vm_compute; reflexivity).
  split; [exact H1|]. split; [exact H0|].
  exact (previousBlockHash_is_undefined Demo.clock Demo.SHA256 Demo.verify
           Demo.Block_body (snd (Demo.submit Demo.freshMessage "good" Demo.ledger))
           0%nat Demo.block1 Demo.genesis
           (demo_submit_sequential Demo.freshMessage "good") H1 H0).
Defined.

(** C4 on the demo ledger: a chain built by the constructor alone. *)
Lemma validateChain_never_settles_witness :
  idle Demo.ledger /\
  exists pV st',
    validateChain Demo.ledger = Some (pV, st') /\
    promiseState pV (run Demo.SHA256 100 st') = Some (Pending []).
Proof.
  split; [reflexivity|].
  destruct (validateChain_never_settles Demo.SHA256 Demo.ledger eq_refl)
    as (pV & st' & Hv & _ & _ & _ & Hp).
  exists pV, st'. split; [exact Hv | exact (Hp 100%nat)].
Defined.

(** C7 as stated fails: when the constructor returns, [this.height] is not
    0 and no block is at position 0. *)
Lemma genesis_missing_when_constructor_returns :
  ~ (height (constructor Demo.clock Demo.Block_body) = 0%Z \/
     exists b, chain (constructor Demo.clock Demo.Block_body) !! 0%nat = Some b).
Proof. intros [H|[b H]]; discriminate H. Qed.

(** The lookup by position on the demo ledger after one submission. *)
Lemma getBlockByHeight_positional_witness :
  consistent (snd (Demo.submit Demo.freshMessage "good" Demo.ledger)) /\
  exists b,
    chain (snd (Demo.submit Demo.freshMessage "good" Demo.ledger)) !! 1%nat = Some b /\
    promiseState
      (fst (getBlockByHeight 1 (snd (Demo.submit Demo.freshMessage "good" Demo.ledger))))
      (snd (getBlockByHeight 1 (snd (Demo.submit Demo.freshMessage "good" Demo.ledger))))
    = Some (Fulfilled (VBlock b)).
Proof.
  assert (consistent (snd (Demo.submit Demo.freshMessage "good" Demo.ledger))) as Hc.
  { apply (sequential_settled Demo.clock Demo.SHA256 Demo.verify Demo.Block_body),
      demo_submit_sequential. }
  split; [exact Hc|].
  destruct (getBlockByHeight_positional
              (snd (Demo.submit Demo.freshMessage "good" Demo.ledger)) 1 Hc)
    as (_ & Hin & _).
  apply Hin. vm_compute. split; discriminate.
Defined.

(** C9 on the demo ledger. *)
Lemma requestMessage_format_witness :
  (1000 <= Demo.clock (clockReads Demo.ledger))%Z /\
  promiseState
    (fst (requestMessageOwnershipVerification Demo.clock "addr" Demo.ledger))
    (snd (requestMessageOwnershipVerification Demo.clock "addr" Demo.ledger))
  = Some (Fulfilled (VString "addr:1600000000:starRegistry")).
Proof.
  assert (1000 <= Demo.clock (clockReads Demo.ledger))%Z as Hms
    by (vm_compute; discriminate).
  split; [exact Hms|].
  exact (proj1 (requestMessage_format Demo.clock "addr" Demo.ledger Hms)).
Defined.

(** C10 on the demo ledger after one submission: no block has the hash
    "nope". *)
Lemma getBlockByHash_missing_never_settles_witness :
  idle (snd (Demo.submit Demo.freshMessage "good" Demo.ledger)) /\
  forall n,
    promiseState
      (fst (getBlockByHash "nope" (snd (Demo.submit Demo.freshMessage "good" Demo.ledger))))
      (run Demo.SHA256 n
         (snd (getBlockByHash "nope"
                 (snd (Demo.submit Demo.freshMessage "good" Demo.ledger)))))
    = Some (Pending []).
Proof.
  split; [reflexivity|].
  apply (getBlockByHash_missing_never_settles Demo.SHA256 "nope"
           (snd (Demo.submit Demo.freshMessage "good" Demo.ledger)) eq_refl).
  intros b Hb. vm_compute in Hb.
  repeat (apply elem_of_cons in Hb as [->|Hb]; [discriminate|]).
  by apply elem_of_nil in Hb.
Defined.

(** * Further properties *)

(** ** Who changes the chain *)

Section Frame.

Variable clock : nat -> Z.
Variable SHA256 : string -> string.
Variable verify : string -> string -> string -> JS.Completion bool.
Variable Block_body : string -> string.

Lemma same_ledger_refl st : same_ledger st st.
Proof. done. Qed.

Lemma same_ledger_trans st1 st2 st3 :
  same_ledger st1 st2 -> same_ledger st2 st3 -> same_ledger st1 st3.
Proof. unfold same_ledger. intros [-> ->] [-> ->]. done. Qed.

Lemma abandon_ledger v st k : same_ledger st (abandon v st k).
Proof. by destruct k. Qed.

Lemma resolvePromise_ledger p v st : same_ledger st (resolvePromise p v st).
Proof. unfold resolvePromise. by destruct (promises st !! p) as [[]|]. Qed.

Lemma rejectPromise_ledger p v st : same_ledger st (rejectPromise p v st).
Proof.
  unfold rejectPromise. destruct (promises st !! p) as [[rs| |]|]; try done.
  assert (forall s0, same_ledger st s0 -> same_ledger st (foldl (abandon v) s0 rs)) as H.
  { induction rs as [|k rs IH]; intros s0 Hs; [done|].
    cbn [foldl]. apply IH. eapply same_ledger_trans; [exact Hs|apply abandon_ledger]. }
  by apply H.
Qed.

Lemma onFulfilled_ledger p k st : same_ledger st (onFulfilled p k st).
Proof.
  unfold onFulfilled. destruct (promises st !! p) as [[]|]; try done.
  apply abandon_ledger.
Qed.

Lemma getChainHeight_ledger st : same_ledger st (snd (getChainHeight st)).
Proof. destruct st. by rewrite getChainHeight_eq. Qed.

Lemma getBlockByHeight_ledger h st : same_ledger st (snd (getBlockByHeight h st)).
Proof. destruct st. by rewrite getBlockByHeight_eq. Qed.

Lemma _addBlock_ledger body st : same_ledger st (snd (_addBlock clock body st)).
Proof. destruct st. by rewrite _addBlock_eq. Qed.

Lemma forEachHeight_ledger from to k st :
  same_ledger st (forEachHeight from to k st).
Proof.
  unfold forEachHeight. generalize (seqZ from (to - from)). intros l.
  assert (forall s0, same_ledger st s0 ->
            same_ledger st
              (foldl (fun st i => let '(p, st) := getBlockByHeight i st in
                                  onFulfilled p k st) s0 l)) as H.
  { induction l as [|i l IH]; intros s0 Hs; [done|].
    cbn [foldl]. apply IH. eapply same_ledger_trans; [exact Hs|].
    rewrite (surjective_pairing (getBlockByHeight i s0)).
    eapply same_ledger_trans; [apply getBlockByHeight_ledger|apply onFulfilled_ledger]. }
  by apply H.
Qed.

(** Rewrites the ledger of a state through the operations on promises. *)
Ltac ledger_frame :=
  unfold same_ledger; cbn [snd];
  repeat match goal with
    | |- context [onFulfilled ?p ?k ?s0] =>
        destruct (onFulfilled_ledger p k s0) as [-> ->]
    | |- context [resolvePromise ?p ?w ?s0] =>
        destruct (resolvePromise_ledger p w s0) as [-> ->]
    | |- context [forEachHeight ?a ?b ?k ?s0] =>
        destruct (forEachHeight_ledger a b k s0) as [-> ->]
    end;
  done.

Lemma getStarsByWalletAddress_frame address st :
  same_ledger st (snd (getStarsByWalletAddress address st)).
Proof.
  destruct st as [c h ps js us vs n]. unfold getStarsByWalletAddress.
  rewrite newPromise_eq.
  change (identifier getStarsByWalletAddress_scope "hash")
    with (@JS.Throw string (JS.ReferenceError "hash is not defined")).
  cbn iota. by rewrite (rejectPromise_fresh c h ps []).
Qed.

(** No method changes [this.chain] or [this.height] before it returns:
    whatever a call does to the ledger, it does in the jobs it queues. *)
Theorem calls_leave_ledger st :
  (forall address message signature star,
     same_ledger st (snd (submitStar clock verify Block_body
                            address message signature star st))) /\
  (forall address,
     same_ledger st (snd (requestMessageOwnershipVerification clock address st))) /\
  (forall hash, same_ledger st (snd (getBlockByHash hash st))) /\
  (forall h, same_ledger st (snd (getBlockByHeight h st))) /\
  (forall address, same_ledger st (snd (getStarsByWalletAddress address st))) /\
  same_ledger st (snd (getChainHeight st)) /\
  same_ledger st (snd (initializeChain clock Block_body st)) /\
  match validateChain st with
  | Some (_, st') => same_ledger st st'
  | None => False
  end.
Proof.
  split; [|split; [|split; [|split; [|split; [|split; [|split]]]]]].
  - intros address message signature star. unfold submitStar.
    destruct st as [c h ps js us vs n]. rewrite newPromise_eq.
    unfold getTime. state_simpl.
    destruct (JS.gt _ _); rewrite ?rejectPromise_fresh; state_simpl;
      (destruct (verify message address signature) as [r|e];
       [rewrite _addBlock_eq; ledger_frame | done]).
  - intros address. destruct st.
    by rewrite requestMessageOwnershipVerification_eq.
  - intros hash. unfold getBlockByHash. destruct st as [c h ps js us vs n].
    rewrite newPromise_eq, getChainHeight_eq. ledger_frame.
  - intros h. apply getBlockByHeight_ledger.
  - intros address. apply getStarsByWalletAddress_frame.
  - apply getChainHeight_ledger.
  - unfold initializeChain. destruct st as [c h ps js us vs n].
    rewrite newPromise_eq. state_simpl. destruct (h =? -1)%Z.
    + rewrite _addBlock_eq. ledger_frame.
    + ledger_frame.
  - by destruct st.
Qed.

(** A job never removes or rewrites a block and never lowers
    [this.height]: it leaves the chain as it is or pushes one block at the
    end, and leaves the height or adds one. *)
Lemma step_appends st st' :
  step SHA256 st = Some st' ->
  (chain st' = chain st \/ exists b, chain st' = chain st ++ [b]) /\
  (height st' = height st \/ height st' = (height st + 1)%Z).
Proof.
  destruct st as [c h ps [|[k v] js] us vs n]; [done|].
  rewrite step_cons. destruct k.
  - destruct v; try done. rewrite resume_afterHeight. intros [= <-].
    split; [by left | by right].
  - cbn [resume]. destruct (prim_of_value v); [|done]. intros [= <-].
    match goal with |- context [resolvePromise ?p ?w ?s0] =>
      destruct (resolvePromise_ledger p w s0) as [-> ->] end.
    split; [right; by eexists | by left].
  - cbn [resume]. intros [= <-].
    match goal with |- context [resolvePromise ?p ?w ?s0] =>
      destruct (resolvePromise_ledger p w s0) as [-> ->] end.
    by split; left.
  - cbn [resume]. intros [= <-].
    match goal with |- context [resolvePromise ?p ?w ?s0] =>
      destruct (resolvePromise_ledger p w s0) as [-> ->] end.
    by split; left.
  - destruct v; try done. cbn [resume]. intros [= <-].
    match goal with |- context [forEachHeight ?a ?b ?k ?s0] =>
      destruct (forEachHeight_ledger a b k s0) as [-> ->] end.
    by split; left.
  - destruct v; try done; cbn [resume].
    + intros [= <-]. by split; left.
    + destruct (String.eqb _ _); intros [= <-]; [|by split; left].
      match goal with |- context [resolvePromise ?p ?w ?s0] =>
        destruct (resolvePromise_ledger p w s0) as [-> ->] end.
      by split; left.
  - destruct v; try done. cbn [resume]. intros [= <-].
    match goal with |- context [forEachHeight ?a ?b ?k ?s0] =>
      destruct (forEachHeight_ledger a b k s0) as [-> ->] end.
    by split; left.
  - destruct v; try done; cbn [resume]; intros [= <-]; by split; left.
Qed.

(** Append only: after any number of jobs, from any state, the chain
    starts with the blocks it had and [this.height] is not lower. *)
Theorem run_append_only n st :
  chain st `prefix_of` chain (run SHA256 n st) /\
  (height st <= height (run SHA256 n st))%Z.
Proof.
  revert st. induction n as [|n IH]; intros st; [done|].
  cbn [run]. destruct (step SHA256 st) as [st'|] eqn:E; [|done].
  destruct (step_appends st st' E) as [Hc Hh]. destruct (IH st') as [IHc IHh].
  split.
  - destruct Hc as [Hc|[b Hc]]; rewrite Hc in IHc; [done|].
    by eapply prefix_app_l.
  - destruct Hh as [Hh|Hh]; rewrite Hh in IHh; lia.
Qed.

End Frame.

(** ** Ledgers used one call at a time, continued *)

Section Sequential.

Variable clock : nat -> Z.
Variable SHA256 : string -> string.
Variable verify : string -> string -> string -> JS.Completion bool.
Variable Block_body : string -> string.

(** Every block of the chain is one that [_addBlock] sealed. *)
Lemma sequential_blocks (Q : Block.t -> Prop) st :
  (forall h body t, Q (sealed SHA256 h body t)) ->
  sequential clock SHA256 verify Block_body st ->
  Forall Q (chain st).
Proof.
  intros HQ. induction 1 as [|st address message signature star Hs IH
                             |st address _ IH|st _ IH|st h _ IH].
  - rewrite constructor_run. cbn [chain]. by repeat constructor.
  - pose proof (sequential_settled _ _ _ _ _ Hs) as (Hidle & _).
    destruct st as [c h ps js us vs n]. unfold idle in Hidle. cbn [jobs] in Hidle.
    subst js. destruct (verify message address signature) as [r|e] eqn:Hv.
    + destruct (submitStar_run clock SHA256 verify Block_body
                  address message signature star r c h ps us vs n Hv) as [_ ->].
      cbn [chain] in *. apply Forall_app. split; [done|]. by repeat constructor.
    + rewrite (submitStar_throw clock verify Block_body
                 address message signature star e c h ps us vs n Hv).
      cbn [snd]. by rewrite run_idle.
  - destruct st. by rewrite requestMessageOwnershipVerification_eq.
  - destruct st. by rewrite getChainHeight_eq.
  - destruct st. by rewrite getBlockByHeight_eq.
Qed.

(** In a ledger used one call at a time, no job is pending between calls,
    the chain is not empty, the block at position i has height i,
    [this.height] is the number of blocks minus one, and the first block is
    the genesis block. *)
Theorem sequential_ledger_shape st :
  sequential clock SHA256 verify Block_body st ->
  idle st /\
  (1 <= length (chain st))%nat /\
  height st = (Z.of_nat (length (chain st)) - 1)%Z /\
  (forall (i : nat) b, chain st !! i = Some b -> Block.height b = Z.of_nat i) /\
  exists genesis, chain st !! 0%nat = Some genesis /\
                  Block.body genesis = Block_body "Genesis Block".
Proof.
  intros Hs. destruct (sequential_settled _ _ _ _ _ Hs) as (Hi & [Hh Hc] & _ & Hg).
  split; [done|]. split; [|split; [done|split; [done|]]].
  - apply lookup_lt_Some in Hg. lia.
  - eexists. split; [exact Hg|done].
Qed.

(** In a ledger used one call at a time, the stored hash of every block is
    the digest of its own height, body and time followed by "undefined":
    the hash of the block before it has no part in it. *)
Theorem sequential_hashes st b :
  sequential clock SHA256 verify Block_body st ->
  b ∈ chain st ->
  Block.hash b = SHA256 (hashedText b).
Proof.
  intros Hs Hb.
  pose proof (sequential_blocks (fun b => Block.hash b = SHA256 (hashedText b)) st) as H.
  rewrite Forall_forall in H. apply H; [done|done|done].
Qed.

(** In a ledger used one call at a time, [getChainHeight()] is fulfilled
    with the number of blocks minus one, which is never negative. *)
Theorem getChainHeight_counts_blocks st :
  sequential clock SHA256 verify Block_body st ->
  promiseState (fst (getChainHeight st)) (snd (getChainHeight st))
  = Some (Fulfilled (VNumber (Z.of_nat (length (chain st)) - 1))) /\
  (0 <= Z.of_nat (length (chain st)) - 1)%Z.
Proof.
  intros Hs. destruct (sequential_settled _ _ _ _ _ Hs) as (_ & [Hh _] & _ & Hg).
  apply lookup_lt_Some in Hg. destruct st as [c h ps js us vs n].
  cbn [chain height] in *. rewrite getChainHeight_eq. unfold promiseState.
  state_simpl. rewrite store_lookup, Hh. split; [done|lia].
Qed.

(** In a ledger used one call at a time, a further [initializeChain()] is
    fulfilled at once and creates no second genesis block: it queues no
    job and leaves the chain as it is. *)
Theorem initializeChain_once st :
  sequential clock SHA256 verify Block_body st ->
  let out := initializeChain clock Block_body st in
  promiseState (fst out) (snd out) = Some (Fulfilled VUndefined) /\
  idle (snd out) /\ same_ledger st (snd out).
Proof.
  intros Hs. destruct (sequential_settled _ _ _ _ _ Hs) as (Hi & [Hh _] & _ & Hg).
  apply lookup_lt_Some in Hg. destruct st as [c h ps js us vs n].
  unfold idle in *. cbn [chain height jobs] in *. subst js. cbn zeta.
  unfold initializeChain. rewrite newPromise_eq. state_simpl.
  destruct (Z.eqb_spec h (-1)) as [->|_]; [lia|].
  rewrite resolvePromise_pending. unfold promiseState. state_simpl.
  by rewrite store_lookup.
Qed.

End Sequential.

(** ** Submissions, continued *)

Section SubmissionEdges.

Variable clock : nat -> Z.
Variable SHA256 : string -> string.
Variable verify : string -> string -> string -> JS.Completion bool.
Variable Block_body : string -> string.

(** When [bitcoinMessage.verify] throws, [submitStar] on an idle ledger
    appends nothing and queues nothing; the error is left unhandled, and
    the promise returned stays as the time check left it for ever:
    rejected with undefined for an old challenge, pending otherwise. *)
Theorem submitStar_verifier_throws address message signature star e st :
  idle st ->
  verify message address signature = JS.Throw e ->
  let out := submitStar clock verify Block_body address message signature star st in
  same_ledger st (snd out) /\
  idle (snd out) /\
  unhandled (snd out) = unhandled st ++ [VError e] /\
  forall n,
    promiseState (fst out) (run SHA256 n (snd out))
    = Some (if expired (clock (clockReads st)) message
            then Rejected VUndefined else Pending []).
Proof.
  destruct st as [c h ps js us vs n]. unfold idle; cbn [jobs clockReads].
  intros -> Hv. cbn zeta.
  rewrite (submitStar_throw clock verify Block_body
             address message signature star e c h ps us vs n Hv).
  cbn [fst snd]. split; [done|]. split; [done|]. split; [done|].
  intros m. rewrite run_idle by done. unfold promiseState. state_simpl.
  apply store_lookup.
Qed.

(** While an append is in flight, [this.height] runs ahead of the chain:
    after the first job of a submission on an idle ledger whose blocks sit
    at the position of their height, the height is already one more, the
    block is not pushed yet, and no block has the height [this.height]. *)
Theorem height_runs_ahead address message signature star r st :
  idle st ->
  consistent st ->
  verify message address signature = JS.Normal r ->
  let st1 := run SHA256 1
               (snd (submitStar clock verify Block_body
                       address message signature star st)) in
  height st1 = (height st + 1)%Z /\
  chain st1 = chain st /\
  blockAtHeight (height st1) (chain st1) = None.
Proof.
  destruct st as [c h ps js us vs n]. unfold idle, consistent; cbn [jobs chain height].
  intros -> [Hh Hc] Hv. cbn zeta. unfold submitStar. rewrite newPromise_eq.
  unfold getTime. state_simpl. rewrite Hv.
  destruct (JS.gt _ _); rewrite ?rejectPromise_fresh; state_simpl;
    rewrite _addBlock_eq; state_simpl;
    rewrite (onFulfilled_pending c h (ps ++ [_]) [Fulfilled (VNumber h)]);
    cbn [run]; rewrite step_cons, resume_afterHeight; state_simpl.
  all: split; [done|]; split; [done|].
  all: rewrite (blockAtHeight_offset c 0 (h + 1))
         by (intros i b Hi; rewrite (Hc i b Hi); lia).
  all: destruct (decide (0 <= h + 1)%Z); [|done].
  all: apply lookup_ge_None_2; lia.
Qed.

(** What a submission stores: the block appended on an idle ledger holds
    the encoding of [{data: message}]; the address, the signature and the
    star are not stored, and two submissions that differ in the star alone
    leave the same state. *)
Theorem submitStar_stores_message address message signature star star' r st :
  idle st ->
  verify message address signature = JS.Normal r ->
  let out := submitStar clock verify Block_body address message signature star st in
  (exists b, last (chain (run SHA256 3 (snd out))) = Some b /\
             Block.body b = Block_body message) /\
  submitStar clock verify Block_body address message signature star' st = out.
Proof.
  destruct st as [c h ps js us vs n]. unfold idle; cbn [jobs]. intros -> Hv.
  cbn zeta. split; [|done].
  destruct (submitStar_run clock SHA256 verify Block_body
              address message signature star r c h ps us vs n Hv) as [_ ->].
  cbn [chain]. eexists. split; [apply last_snoc|done].
Qed.

(** A submission made as soon as the constructor returns, before the jobs
    of the constructor have run: whatever the message, when the verifier
    returns, the six jobs leave a chain of two blocks that both have
    height 0, the genesis block first, while [this.height] is 1. *)
Theorem submission_before_genesis address message signature star r :
  verify message address signature = JS.Normal r ->
  let st := run SHA256 6
              (snd (submitStar clock verify Block_body
                      address message signature star
                      (constructor clock Block_body))) in
  idle st /\
  map Block.height (chain st) = [0%Z; 0%Z] /\
  map Block.body (chain st) = [Block_body "Genesis Block"; Block_body message] /\
  height st = 1%Z.
Proof.
  intros Hv. cbn zeta. rewrite constructor_eq. unfold submitStar.
  rewrite newPromise_eq. unfold getTime. state_simpl. rewrite Hv.
  destruct (JS.gt _ _); vm_compute; by repeat split.
Qed.

End SubmissionEdges.

(** ** The time check *)

Section TimeCheck.

Variable clock : nat -> Z.
Variable SHA256 : string -> string.
Variable verify : string -> string -> string -> JS.Completion bool.
Variable Block_body : string -> string.

Lemma split_no_separator_eq sep s :
  contains sep s = false -> JS.split sep s = [s].
Proof.
  induction s as [|a s IH]; [done|]. cbn [contains JS.split].
  intros [Ha Hs]%orb_false_elim. rewrite Ha, (IH Hs). done.
Qed.

Lemma split_field sep s1 s2 :
  contains sep s1 = false ->
  JS.split sep (s1 +:+ String sep s2) = s1 :: JS.split sep s2.
Proof.
  induction s1 as [|a s1 IH].
  - intros _. change (EmptyString +:+ String sep s2) with (String sep s2).
    cbn [JS.split]. by rewrite Ascii.eqb_refl.
  - cbn [contains]. intros [Ha Hs]%orb_false_elim.
    change (String a s1 +:+ String sep s2) with (String a (s1 +:+ String sep s2)).
    cbn [JS.split]. by rewrite Ha, (IH Hs).
Qed.

Lemma sub_NaN x : JS.sub x JS.NaN = JS.NaN.
Proof. by destruct x. Qed.

(** A message without ":" has no time to compare: [parseInt] gives NaN, the
    comparison with five minutes is false, and the time check lets the
    message pass at every clock reading. *)
Lemma expired_no_separator ms message :
  contains ":" message = false -> expired ms message = false.
Proof.
  intros Hc. unfold expired. rewrite (split_no_separator_eq _ _ Hc).
  change (JS.parseInt_element ([message] !! 1%nat)) with JS.NaN.
  by rewrite sub_NaN.
Qed.

(** A message that carries no time never expires: when the message has no
    ":" and the verifier returns, [submitStar] on an idle ledger appends
    the block and fulfils its promise, whatever the clock reads. *)
Theorem submitStar_without_time address message signature star r st :
  idle st ->
  contains ":" message = false ->
  verify message address signature = JS.Normal r ->
  let out := submitStar clock verify Block_body address message signature star st in
  promiseState (fst out) (run SHA256 3 (snd out)) = Some (Fulfilled VUndefined) /\
  length (chain (run SHA256 3 (snd out))) = S (length (chain st)).
Proof.
  destruct st as [c h ps js us vs n]. unfold idle; cbn [jobs]. intros -> Hc Hv.
  destruct (submitStar_run clock SHA256 verify Block_body
              address message signature star r c h ps us vs n Hv) as [Hp Hr].
  cbn zeta. rewrite Hr, Hp. unfold promiseState. state_simpl.
  rewrite (expired_no_separator _ _ Hc), store_lookup, length_app. cbn [length].
  split; [done|lia].
Qed.

Lemma all_digits_app s1 s2 :
  all_digits (s1 +:+ s2) = all_digits s1 && all_digits s2.
Proof.
  induction s1 as [|a s1 IH]; [done|].
  change (String a s1 +:+ s2) with (String a (s1 +:+ s2)).
  cbn [all_digits]. by rewrite IH, andb_assoc.
Qed.

Lemma pretty_N_char_digit (d : N) :
  (d < 10)%N ->
  is_digit (pretty_N_char d) = true /\
  JS.digit_value 10 (pretty_N_char d) = Some (Z.of_N d).
Proof.
  intros Hd.
  assert (d = 0 \/ d = 1 \/ d = 2 \/ d = 3 \/ d = 4 \/ d = 5 \/ d = 6 \/ d = 7
          \/ d = 8 \/ d = 9)%N as H by lia.
  repeat (destruct H as [->|H]; [done|]). by subst d.
Qed.

Lemma pretty_N_go_snoc (x : N) :
  (0 < x)%N ->
  pretty_N_go x EmptyString
  = pretty_N_go (x `div` 10) EmptyString
    +:+ String (pretty_N_char (x `mod` 10)) EmptyString.
Proof. intros Hx. by rewrite pretty_N_go_step, pretty_N_go_append. Qed.

Lemma all_digits_pretty_N_go (x : N) : all_digits (pretty_N_go x EmptyString) = true.
Proof.
  induction (N.lt_wf_0 x) as [x _ IH].
  destruct (decide (x = 0)%N) as [->|Hx]; [done|].
  rewrite pretty_N_go_snoc, all_digits_app by lia.
  rewrite IH by (apply N.div_lt; lia). cbn [all_digits andb].
  destruct (pretty_N_char_digit (x `mod` 10)) as [-> _]; [|done].
  apply N.mod_lt. lia.
Qed.

Lemma is_digit_value a :
  is_digit a = true ->
  JS.digit_value 10 a = Some (Z.of_nat (nat_of_ascii a) - 48)%Z.
Proof.
  unfold is_digit, JS.digit_value. intros [H1 H2]%andb_prop.
  apply Nat.leb_le in H1, H2.
  assert ((48 <=? Z.of_nat (nat_of_ascii a))%Z = true) as -> by (apply Z.leb_le; lia).
  assert ((Z.of_nat (nat_of_ascii a) <=? 57)%Z = true) as -> by (apply Z.leb_le; lia).
  cbn [andb].
  assert ((Z.of_nat (nat_of_ascii a) - 48 <? 10)%Z = true) as -> by (apply Z.ltb_lt; lia).
  done.
Qed.

Lemma parse_digits_app s1 s2 acc :
  all_digits s1 = true ->
  JS.parse_digits 10 acc (s1 +:+ s2)
  = JS.parse_digits 10 (JS.parse_digits 10 acc s1) s2.
Proof.
  revert acc. induction s1 as [|a s1 IH]; intros acc; [done|].
  cbn [all_digits]. intros [Ha Hs]%andb_prop.
  change (String a s1 +:+ s2) with (String a (s1 +:+ s2)).
  cbn [JS.parse_digits]. rewrite (is_digit_value a Ha). by apply IH.
Qed.

Lemma parse_digits_pretty_N_go (x : N) :
  (0 < x)%N ->
  JS.parse_digits 10 None (pretty_N_go x EmptyString) = Some (Z.of_N x).
Proof.
  induction (N.lt_wf_0 x) as [x _ IH]. intros Hx.
  rewrite pretty_N_go_snoc by done.
  rewrite parse_digits_app by apply all_digits_pretty_N_go.
  destruct (pretty_N_char_digit (x `mod` 10)) as [_ Hd]; [apply N.mod_lt; lia|].
  assert (Z.of_N x = 10 * Z.of_N (x `div` 10) + Z.of_N (x `mod` 10))%Z as Hx10.
  { rewrite <- N2Z.inj_mul with (n := 10%N), <- N2Z.inj_add.
    f_equal. by apply N.div_mod. }
  destruct (decide (x `div` 10 = 0)%N) as [Hq|Hq].
  - rewrite Hq in *. change (pretty_N_go 0 EmptyString) with EmptyString.
    cbn [JS.parse_digits]. rewrite Hd, Hx10. done.
  - rewrite IH; [|apply N.div_lt; lia|by apply N.neq_0_lt_0].
    cbn [JS.parse_digits]. rewrite Hd, Hx10. done.
Qed.

Lemma parse_digits_sign (s : string) :
  match JS.parse_digits 10 None s with
  | Some v => JS.Int (1 * v)
  | None => JS.NaN
  end
  = match JS.parse_digits 10 None s with
    | Some v => JS.Int v
    | None => JS.NaN
    end.
Proof. destruct (JS.parse_digits 10 None s) as [v|]; [|done]. by destruct v. Qed.

(** On a string of digits [parseInt] reads no sign and no prefix 0x. *)
Lemma parseInt_digits (s : string) :
  all_digits s = true ->
  JS.parseInt s = match JS.parse_digits 10 None s with
                  | Some v => JS.Int v
                  | None => JS.NaN
                  end.
Proof.
  destruct s as [|a r]; [done|]. cbn [all_digits]. intros [Ha Hr]%andb_prop.
  rewrite <- parse_digits_sign.
  destruct a as [[] [] [] [] [] [] [] []]; try discriminate Ha; try reflexivity.
  destruct r as [|b r]; [done|]. cbn [all_digits] in Hr.
  apply andb_prop in Hr as [Hb _].
  destruct b as [[] [] [] [] [] [] [] []]; try discriminate Hb; reflexivity.
Qed.

Lemma parseInt_pretty_N (x : N) : JS.parseInt (pretty x) = JS.Int (Z.of_N x).
Proof.
  unfold pretty, pretty_N. destruct (decide (x = 0)%N) as [->|Hx]; [done|].
  rewrite parseInt_digits by apply all_digits_pretty_N_go.
  rewrite parse_digits_pretty_N_go; [done|]. by apply N.neq_0_lt_0.
Qed.

Lemma pretty_Z_nonneg (z : Z) : (0 <= z)%Z -> pretty z = pretty (Z.to_N z).
Proof. by destruct z. Qed.

(** Reading back a time that was printed: [parseInt] of the decimal text of
    a number that is not negative is that number. *)
Lemma parseInt_pretty (z : Z) : (0 <= z)%Z -> JS.parseInt (pretty z) = JS.Int z.
Proof.
  intros Hz. rewrite pretty_Z_nonneg, parseInt_pretty_N by done.
  f_equal. lia.
Qed.

Lemma all_digits_pretty (z : Z) : (0 <= z)%Z -> all_digits (pretty z) = true.
Proof.
  intros Hz. rewrite pretty_Z_nonneg by done. unfold pretty, pretty_N.
  destruct (decide _); [done|]. apply all_digits_pretty_N_go.
Qed.

Lemma all_digits_no_separator (s : string) :
  all_digits s = true -> contains ":" s = false.
Proof.
  induction s as [|a s IH]; [done|]. cbn [all_digits contains].
  intros [Ha Hs]%andb_prop. rewrite (IH Hs), orb_false_r.
  destruct (Ascii.eqb_spec a ":") as [->|]; [discriminate Ha|done].
Qed.

(** The time check on a challenge that was issued: when an address without
    ":" asks for a challenge at clock reading [ms] and submits it at clock
    reading [ms'] (both at least one second after the epoch), the
    submission counts as too old exactly when the two readings, in whole
    seconds, are more than 300 apart; at 300 seconds it still passes. *)
Theorem issued_challenge_expiry address st (ms' : Z) :
  contains ":" address = false ->
  (1000 <= clock (clockReads st))%Z ->
  (1000 <= ms')%Z ->
  let out := requestMessageOwnershipVerification clock address st in
  exists message,
    promiseState (fst out) (snd out) = Some (Fulfilled (VString message)) /\
    expired ms' message
    = (300 <? ms' / 1000 - clock (clockReads st) / 1000)%Z.
Proof.
  destruct st as [c h ps js us vs n]. cbn [clockReads]. intros Ha Hms Hms'. cbn zeta.
  rewrite requestMessageOwnershipVerification_eq. unfold promiseState. state_simpl.
  rewrite store_lookup. eexists. split; [reflexivity|].
  unfold expired. rewrite !timeString_seconds by done.
  assert (0 <= clock n / 1000)%Z as Hq by (apply Z.div_pos; lia).
  assert (0 <= ms' / 1000)%Z as Hq' by (apply Z.div_pos; lia).
  change (address +:+ ":" +:+ pretty (clock n / 1000)%Z +:+ ":starRegistry")
    with (address +:+ String ":" (pretty (clock n / 1000)%Z
                                    +:+ String ":" "starRegistry")).
  rewrite (split_field _ _ _ Ha).
  rewrite split_field by by apply all_digits_no_separator, all_digits_pretty.
  cbn [lookup list_lookup JS.parseInt_element].
  by rewrite !parseInt_pretty.
Qed.

End TimeCheck.

(** ** Looking a block up by its hash *)

Section HashLookup.

Variable SHA256 : string -> string.

Lemma forEachHeight_positions k c h ps js us vs n (m : nat) :
  (forall (i : nat) b, c !! i = Some b -> Block.height b = Z.of_nat i) ->
  (m <= length c)%nat ->
  foldl (fun st i => let '(p, st) := getBlockByHeight i st in onFulfilled p k st)
        (mkState c h ps js us vs n) (seqZ 0 (Z.of_nat m))
  = mkState c h (ps ++ map (fun b => Fulfilled (VBlock b)) (take m c))
            (js ++ map (fun b => (k, VBlock b)) (take m c)) us vs n.
Proof.
  intros Hc. induction m as [|m IH]; intros Hm.
  - cbn. by rewrite !app_nil_r.
  - rewrite seqZ_S, foldl_app, IH by lia. cbn [foldl].
    destruct (lookup_lt_is_Some_2 c m) as [b Hb]; [lia|].
    rewrite getBlockByHeight_eq.
    rewrite (blockAtHeight_offset c 0 (0 + Z.of_nat m))
      by (intros i b' Hi; rewrite (Hc i b' Hi); lia).
    rewrite decide_True by lia.
    replace (Z.to_nat (0 + Z.of_nat m - 0)) with m by lia. rewrite Hb.
    rewrite (onFulfilled_fulfilled c h _ []).
    rewrite (take_S_r c m b Hb), !map_app, !app_assoc. done.
Qed.

Lemma run_lookup_settled hash pH v (l : list Block.t) c h ps us vs n :
  ps !! pH = Some (Fulfilled v) ->
  run SHA256 (length l)
      (mkState c h ps (map (fun b => (getBlockByHash_onBlock hash pH, VBlock b)) l)
               us vs n)
  = mkState c h ps [] us vs n.
Proof.
  intros Hp. induction l as [|b l IH]; [done|].
  cbn [length run map]. rewrite step_cons. cbn [resume].
  destruct (String.eqb _ _); [|done].
  unfold resolvePromise. cbn [promises]. by rewrite Hp.
Qed.

Lemma run_lookup_pending hash pH (l : list Block.t) c h ps us vs n :
  ps !! pH = Some (Pending []) ->
  exists ps',
    run SHA256 (length l)
        (mkState c h ps (map (fun b => (getBlockByHash_onBlock hash pH, VBlock b)) l)
                 us vs n)
    = mkState c h ps' [] us vs n /\
    ps' !! pH = Some (match firstWithHash hash l with
                      | Some b => Fulfilled (VBlock b)
                      | None => Pending []
                      end).
Proof.
  intros Hp. induction l as [|b l IH]; [by exists ps|].
  cbn [length run map]. rewrite step_cons. cbn [resume].
  unfold firstWithHash. cbn [find]. fold (firstWithHash hash l).
  destruct (String.eqb (Block.hash b) hash); [|done].
  unfold resolvePromise. cbn [promises]. rewrite Hp. state_simpl.
  rewrite app_nil_r. eexists. split.
  - apply (run_lookup_settled hash pH (VBlock b)).
    apply list_lookup_insert_eq. by eapply lookup_lt_Some.
  - apply list_lookup_insert_eq. by eapply lookup_lt_Some.
Qed.

(** Looking up a hash the chain has: on an idle ledger whose blocks sit at
    the position of their height, once the jobs of [getBlockByHash(hash)]
    have run (one per block and one more), the ledger is as before and the
    promise is fulfilled with the first block, in chain order, that has
    this hash; it is still pending when no block has it. *)
Theorem getBlockByHash_first_match hash st :
  idle st ->
  consistent st ->
  let out := getBlockByHash hash st in
  let st' := run SHA256 (S (length (chain st))) (snd out) in
  idle st' /\
  same_ledger st st' /\
  promiseState (fst out) st'
  = Some (match firstWithHash hash (chain st) with
          | Some b => Fulfilled (VBlock b)
          | None => Pending []
          end).
Proof.
  destruct st as [c h ps js us vs n]. unfold idle, consistent; cbn [jobs chain height].
  intros -> [Hh Hc]. cbn zeta.
  unfold getBlockByHash. rewrite newPromise_eq, getChainHeight_eq.
  rewrite (onFulfilled_fulfilled c h (ps ++ [Pending []]) []).
  rewrite <- (app_assoc ps). cbn [app fst snd].
  cbn [run]. rewrite step_cons. cbn [resume]. unfold forEachHeight.
  replace (h + 1 - 0)%Z with (Z.of_nat (length c)) by lia.
  rewrite (forEachHeight_positions _ c h _ [] us vs n (length c) Hc) by done.
  rewrite take_ge by done. cbn [app].
  destruct (run_lookup_pending hash (length ps) c c h
              ((ps ++ [Pending []; Fulfilled (VNumber h)])
                 ++ map (fun b => Fulfilled (VBlock b)) c) us vs n)
    as (ps' & -> & Hp').
  { apply lookup_app_l_Some, store_lookup. }
  by repeat split.
Qed.

End HashLookup.

(** ** Submitting, then reading back *)

Section ReadBack.

Variable clock : nat -> Z.
Variable SHA256 : string -> string.
Variable verify : string -> string -> string -> JS.Completion bool.
Variable Block_body : string -> string.

(** In a ledger used one call at a time, a submission on which the
    verifier returns can be read back: afterwards [getBlockByHeight] at the
    new [this.height] is fulfilled with the last block of the chain, whose
    body is the encoding of [{data: message}] and whose height is the old
    height plus one. *)
Theorem submitted_block_read_back address message signature star r st :
  sequential clock SHA256 verify Block_body st ->
  verify message address signature = JS.Normal r ->
  let st' := run SHA256 3
               (snd (submitStar clock verify Block_body
                       address message signature star st)) in
  let out := getBlockByHeight (height st') st' in
  exists b,
    promiseState (fst out) (snd out) = Some (Fulfilled (VBlock b)) /\
    last (chain st') = Some b /\
    Block.body b = Block_body message /\
    Block.height b = (height st + 1)%Z.
Proof.
  intros Hs Hv.
  destruct (sequential_settled _ _ _ _ _ Hs) as (Hi & Hcons & _).
  destruct st as [c h ps js us vs n]. unfold idle in Hi. cbn [jobs] in Hi. subst js.
  destruct (submitStar_run clock SHA256 verify Block_body
              address message signature star r c h ps us vs n Hv) as [_ Hr].
  cbn zeta. rewrite Hr. cbn [height].
  pose proof (consistent_push SHA256 c h ps [] us vs n ps [] us vs n
                (Block_body message) (timeString (clock (S n))) Hcons) as [Hh' Hc'].
  cbn [chain height] in Hh', Hc'. destruct Hcons as [Hh _]. cbn [chain height] in Hh.
  rewrite getBlockByHeight_eq. unfold promiseState. state_simpl.
  rewrite store_lookup.
  rewrite (blockAtHeight_offset _ 0 (h + 1))
    by (intros i b Hi; rewrite (Hc' i b Hi); lia).
  rewrite decide_True by lia.
  replace (Z.to_nat (h + 1 - 0)) with (length c + 0)%nat by lia.
  rewrite lookup_app_r by lia. replace (length c + 0 - length c)%nat with 0%nat by lia.
  eexists. split; [reflexivity|]. split; [apply last_snoc|done].
Qed.

End ReadBack.

(** ** The further properties on the demo ledger *)

Lemma sequential_ledger_shape_witness :
  sequential Demo.clock Demo.SHA256 Demo.verify Demo.Block_body
    (snd (Demo.submit Demo.freshMessage "good" Demo.ledger)) /\
  idle (snd (Demo.submit Demo.freshMessage "good" Demo.ledger)) /\
  (1 <= length (chain (snd (Demo.submit Demo.freshMessage "good" Demo.ledger))))%nat.
Proof.
  split; [apply demo_submit_sequential|].
  destruct (sequential_ledger_shape Demo.clock Demo.SHA256 Demo.verify Demo.Block_body
              _ (demo_submit_sequential Demo.freshMessage "good")) as (Hi & Hl & _).
  split; [exact Hi | exact Hl].
Defined.

Lemma sequential_hashes_witness :
  Demo.block1 ∈ chain (snd (Demo.submit Demo.freshMessage "good" Demo.ledger)) /\
  Block.hash Demo.block1 = Demo.SHA256 (hashedText Demo.block1).
Proof.
  assert (Demo.block1 ∈ chain (snd (Demo.submit Demo.freshMessage "good" Demo.ledger)))
    as Hb by (vm_compute; apply elem_of_cons; right; apply elem_of_cons; by left).
  split; [exact Hb|].
  exact (sequential_hashes Demo.clock Demo.SHA256 Demo.verify Demo.Block_body
           _ _ (demo_submit_sequential Demo.freshMessage "good") Hb).
Defined.

Lemma getChainHeight_counts_blocks_witness :
  sequential Demo.clock Demo.SHA256 Demo.verify Demo.Block_body Demo.ledger /\
  promiseState (fst (getChainHeight Demo.ledger)) (snd (getChainHeight Demo.ledger))
  = Some (Fulfilled (VNumber (Z.of_nat (length (chain Demo.ledger)) - 1))).
Proof.
  split; [apply demo_ledger_sequential|].
  exact (proj1 (getChainHeight_counts_blocks Demo.clock Demo.SHA256 Demo.verify
                  Demo.Block_body Demo.ledger demo_ledger_sequential)).
Defined.

Lemma initializeChain_once_witness :
  sequential Demo.clock Demo.SHA256 Demo.verify Demo.Block_body Demo.ledger /\
  idle (snd (initializeChain Demo.clock Demo.Block_body Demo.ledger)) /\
  same_ledger Demo.ledger (snd (initializeChain Demo.clock Demo.Block_body Demo.ledger)).
Proof.
  split; [apply demo_ledger_sequential|].
  exact (proj2 (initializeChain_once Demo.clock Demo.SHA256 Demo.verify
                  Demo.Block_body Demo.ledger demo_ledger_sequential)).
Defined.

Lemma submitStar_verifier_throws_witness :
  idle Demo.ledger /\
  Demo.verify Demo.freshMessage "addr" EmptyString
  = JS.Throw (JS.OtherError "Invalid signature length") /\
  same_ledger Demo.ledger
    (snd (submitStar Demo.clock Demo.verify Demo.Block_body
            "addr" Demo.freshMessage EmptyString VUndefined Demo.ledger)).
Proof.
  split; [reflexivity|]. split; [reflexivity|].
  exact (proj1 (submitStar_verifier_throws Demo.clock Demo.SHA256 Demo.verify
                  Demo.Block_body "addr" Demo.freshMessage EmptyString VUndefined
                  (JS.OtherError "Invalid signature length") Demo.ledger
                  eq_refl eq_refl)).
Defined.

Lemma height_runs_ahead_witness :
  idle Demo.ledger /\ consistent Demo.ledger /\
  Demo.verify Demo.freshMessage "addr" "good" = JS.Normal true /\
  height (run Demo.SHA256 1
            (snd (submitStar Demo.clock Demo.verify Demo.Block_body
                    "addr" Demo.freshMessage "good" VUndefined Demo.ledger)))
  = (height Demo.ledger + 1)%Z.
Proof.
  assert (consistent Demo.ledger) as Hc.
  { apply (sequential_settled Demo.clock Demo.SHA256 Demo.verify Demo.Block_body),
      demo_ledger_sequential. }
  split; [reflexivity|]. split; [exact Hc|]. split; [reflexivity|].
  exact (proj1 (height_runs_ahead Demo.clock Demo.SHA256 Demo.verify Demo.Block_body
                  "addr" Demo.freshMessage "good" VUndefined true Demo.ledger
                  eq_refl Hc eq_refl)).
Defined.

Lemma submitStar_stores_message_witness :
  idle Demo.ledger /\
  Demo.verify Demo.freshMessage "addr" "good" = JS.Normal true /\
  submitStar Demo.clock Demo.verify Demo.Block_body
    "addr" Demo.freshMessage "good" (VString "star") Demo.ledger
  = submitStar Demo.clock Demo.verify Demo.Block_body
      "addr" Demo.freshMessage "good" VUndefined Demo.ledger.
Proof.
  split; [reflexivity|]. split; [reflexivity|].
  exact (proj2 (submitStar_stores_message Demo.clock Demo.SHA256 Demo.verify
                  Demo.Block_body "addr" Demo.freshMessage "good"
                  VUndefined (VString "star") true Demo.ledger eq_refl eq_refl)).
Defined.

Lemma submission_before_genesis_witness :
  Demo.verify Demo.freshMessage "addr" "good" = JS.Normal true /\
  height (run Demo.SHA256 6
            (snd (submitStar Demo.clock Demo.verify Demo.Block_body
                    "addr" Demo.freshMessage "good" VUndefined
                    (constructor Demo.clock Demo.Block_body)))) = 1%Z.
Proof.
  split; [reflexivity|].
  destruct (submission_before_genesis Demo.clock Demo.SHA256 Demo.verify
              Demo.Block_body "addr" Demo.freshMessage "good" VUndefined true
              eq_refl) as (_ & _ & _ & Hh).
  exact Hh.
Defined.

Lemma submitStar_without_time_witness :
  idle Demo.ledger /\
  contains ":" "no time here" = false /\
  Demo.verify "no time here" "addr" "good" = JS.Normal true /\
  length (chain (run Demo.SHA256 3
                   (snd (submitStar Demo.clock Demo.verify Demo.Block_body
                           "addr" "no time here" "good" VUndefined Demo.ledger))))
  = S (length (chain Demo.ledger)).
Proof.
  split; [reflexivity|]. split; [reflexivity|]. split; [reflexivity|].
  exact (proj2 (submitStar_without_time Demo.clock Demo.SHA256 Demo.verify
                  Demo.Block_body "addr" "no time here" "good" VUndefined true
                  Demo.ledger eq_refl eq_refl eq_refl)).
Defined.

Lemma issued_challenge_expiry_witness :
  contains ":" "addr" = false /\
  (1000 <= Demo.clock (clockReads Demo.ledger))%Z /\
  (1000 <= 1600000300999)%Z /\
  exists message,
    promiseState
      (fst (requestMessageOwnershipVerification Demo.clock "addr" Demo.ledger))
      (snd (requestMessageOwnershipVerification Demo.clock "addr" Demo.ledger))
    = Some (Fulfilled (VString message)) /\
    expired 1600000300999 message
    = (300 <? 1600000300999 / 1000 - Demo.clock (clockReads Demo.ledger) / 1000)%Z.
Proof.
  assert (1000 <= Demo.clock (clockReads Demo.ledger))%Z as H1
    by (vm_compute; discriminate).
  assert (1000 <= 1600000300999)%Z as H2 by (vm_compute; discriminate).
  split; [reflexivity|]. split; [exact H1|]. split; [exact H2|].
  exact (issued_challenge_expiry Demo.clock "addr" Demo.ledger 1600000300999
           eq_refl H1 H2).
Defined.

Lemma getBlockByHash_first_match_witness :
  idle (snd (Demo.submit Demo.freshMessage "good" Demo.ledger)) /\
  consistent (snd (Demo.submit Demo.freshMessage "good" Demo.ledger)) /\
  firstWithHash (Block.hash Demo.block1)
    (chain (snd (Demo.submit Demo.freshMessage "good" Demo.ledger)))
  = Some Demo.block1 /\
  promiseState
    (fst (getBlockByHash (Block.hash Demo.block1)
            (snd (Demo.submit Demo.freshMessage "good" Demo.ledger))))
    (run Demo.SHA256
       (S (length (chain (snd (Demo.submit Demo.freshMessage "good" Demo.ledger)))))
       (snd (getBlockByHash (Block.hash Demo.block1)
               (snd (Demo.submit Demo.freshMessage "good" Demo.ledger)))))
  = Some (match firstWithHash (Block.hash Demo.block1)
                  (chain (snd (Demo.submit Demo.freshMessage "good" Demo.ledger))) with
          | Some b => Fulfilled (VBlock b)
          | None => Pending []
          end).
Proof.
  assert (consistent (snd (Demo.submit Demo.freshMessage "good" Demo.ledger))) as Hc.
  { apply (sequential_settled Demo.clock Demo.SHA256 Demo.verify Demo.Block_body),
      demo_submit_sequential. }
  split; [reflexivity|]. split; [exact Hc|]. split; [vm_compute; reflexivity|].
  exact (proj2 (proj2 (getBlockByHash_first_match Demo.SHA256
                         (Block.hash Demo.block1)
                         (snd (Demo.submit Demo.freshMessage "good" Demo.ledger))
                         eq_refl Hc))).
Defined.

Lemma submitted_block_read_back_witness :
  sequential Demo.clock Demo.SHA256 Demo.verify Demo.Block_body Demo.ledger /\
  Demo.verify Demo.freshMessage "addr" "good" = JS.Normal true /\
  exists b,
    last (chain (run Demo.SHA256 3
                   (snd (submitStar Demo.clock Demo.verify Demo.Block_body
                           "addr" Demo.freshMessage "good" VUndefined Demo.ledger))))
    = Some b /\
    Block.body b = Demo.Block_body Demo.freshMessage.
Proof.
  split; [apply demo_ledger_sequential|]. split; [reflexivity|].
  destruct (submitted_block_read_back Demo.clock Demo.SHA256 Demo.verify
              Demo.Block_body "addr" Demo.freshMessage "good" VUndefined true
              Demo.ledger demo_ledger_sequential eq_refl) as (b & _ & Hl & Hb & _).
  exists b. split; [exact Hl | exact Hb].
Defined.

(** * Ledgers however they are used *)

Section Evolution.

Variable clock : nat -> Z.
Variable SHA256 : string -> string.
Variable verify : string -> string -> string -> JS.Completion bool.
Variable Block_body : string -> string.

(** ** The methods on any state, one equation each *)

Lemma submitStar_eq address message signature star c h ps js us vs n :
  submitStar clock verify Block_body address message signature star
    (mkState c h ps js us vs n)
  = match verify message address signature with
    | JS.Throw e =>
        (length ps,
         mkState c h
           (ps ++ [if expired (clock n) message
                   then Rejected VUndefined else Pending []])
           js (us ++ [VError e]) (vs ++ [(message, address, signature)]) (S n))
    | JS.Normal _ =>
        (length ps,
         mkState c h
           (ps ++ [if expired (clock n) message
                   then Rejected VUndefined else Pending [];
                   Pending [submitStar_afterAdd (length ps)];
                   Fulfilled (VNumber h)])
           (js ++ [(addBlock_afterHeight (Block_body message)
                      (timeString (clock (S n))) (S (length ps)), VNumber h)])
           us (vs ++ [(message, address, signature)]) (S (S n)))
    end.
Proof.
  unfold submitStar. rewrite newPromise_eq. unfold getTime. state_simpl.
  fold (expired (clock n) message).
  set (x := if expired (clock n) message then Rejected VUndefined else Pending []).
  assert ((if expired (clock n) message
           then rejectPromise (length ps) VUndefined
                  (mkState c h (ps ++ [Pending []]) js us vs (S n))
           else mkState c h (ps ++ [Pending []]) js us vs (S n))
          = mkState c h (ps ++ [x]) js us vs (S n)) as ->.
  { subst x. destruct (expired (clock n) message); [|done].
    by rewrite rejectPromise_fresh. }
  state_simpl. destruct (verify message address signature) as [r|e]; [|done].
  rewrite _addBlock_eq. state_simpl.
  rewrite (onFulfilled_pending c h (ps ++ [x]) [Fulfilled (VNumber h)]).
  rewrite <- (app_assoc ps). cbn [app]. rewrite length_app. cbn [length].
  by rewrite Nat.add_1_r.
Qed.

Lemma getBlockByHash_eq hash c h ps js us vs n :
  getBlockByHash hash (mkState c h ps js us vs n)
  = (length ps,
     mkState c h (ps ++ [Pending []; Fulfilled (VNumber h)])
       (js ++ [(getBlockByHash_onHeight hash (length ps), VNumber h)]) us vs n).
Proof.
  unfold getBlockByHash. rewrite newPromise_eq, getChainHeight_eq.
  rewrite (onFulfilled_fulfilled c h (ps ++ [Pending []]) []).
  by rewrite <- (app_assoc ps).
Qed.

Lemma getStarsByWalletAddress_eq address c h ps js us vs n :
  getStarsByWalletAddress address (mkState c h ps js us vs n)
  = (length ps,
     mkState c h
       (ps ++ [Rejected (VError (JS.ReferenceError "hash is not defined"))])
       js us vs n).
Proof.
  unfold getStarsByWalletAddress. rewrite newPromise_eq.
  change (identifier getStarsByWalletAddress_scope "hash")
    with (@JS.Throw string (JS.ReferenceError "hash is not defined")).
  cbn iota. by rewrite (rejectPromise_fresh c h ps []).
Qed.

Lemma initializeChain_eq c h ps js us vs n :
  initializeChain clock Block_body (mkState c h ps js us vs n)
  = if (h =? -1)%Z
    then (length ps,
          mkState c h
            (ps ++ [Pending []; Pending [initializeChain_afterAdd (length ps)];
                    Fulfilled (VNumber h)])
            (js ++ [(addBlock_afterHeight (Block_body "Genesis Block")
                       (timeString (clock n)) (S (length ps)), VNumber h)])
            us vs (S n))
    else (length ps, mkState c h (ps ++ [Fulfilled VUndefined]) js us vs n).
Proof.
  unfold initializeChain. rewrite newPromise_eq. state_simpl.
  destruct (h =? -1)%Z.
  - rewrite _addBlock_eq. state_simpl.
    rewrite (onFulfilled_pending c h (ps ++ [Pending []]) [Fulfilled (VNumber h)]).
    rewrite <- (app_assoc ps). cbn [app]. rewrite length_app. cbn [length].
    by rewrite Nat.add_1_r.
  - rewrite resolvePromise_pending. state_simpl. by rewrite app_nil_r.
Qed.

Lemma validateChain_eq c h ps js us vs n :
  validateChain (mkState c h ps js us vs n)
  = Some (length ps,
          mkState c h (ps ++ [Pending []]) js
            (us ++ [VError (JS.TypeError "this.getBlockHeight is not a function")])
            vs n).
Proof. reflexivity. Qed.

(** ** The chain only grows *)

Lemma evolves_grows st0 st :
  evolves clock SHA256 verify Block_body st0 st ->
  chain st0 `prefix_of` chain st /\ (height st0 <= height st)%Z.
Proof.
  induction 1 as [|st st' _ [IHc IHh] Hstep
                  |st address message signature star _ IH
                  |st address _ IH|st hash _ IH|st h _ IH|st address _ IH
                  |st _ IH|st _ IH|st pV st' _ IH Hv].
  - done.
  - destruct (step_appends SHA256 st st' Hstep) as [Hc Hh]. split.
    + destruct Hc as [->|[b ->]]; [done|]. by apply prefix_app_r.
    + destruct Hh as [->| ->]; lia.
  - destruct st as [c h ps js us vs n]. rewrite submitStar_eq.
    by destruct (verify message address signature).
  - destruct st. by rewrite requestMessageOwnershipVerification_eq.
  - destruct st. by rewrite getBlockByHash_eq.
  - destruct st. by rewrite getBlockByHeight_eq.
  - destruct st. by rewrite getStarsByWalletAddress_eq.
  - destruct st. by rewrite getChainHeight_eq.
  - destruct st as [c h ps js us vs n]. rewrite initializeChain_eq.
    by destruct (h =? -1)%Z.
  - destruct st as [c h ps js us vs n]. rewrite validateChain_eq in Hv.
    by injection Hv as _ <-.
Qed.

Lemma evolves_run st0 st n :
  evolves clock SHA256 verify Block_body st0 st ->
  evolves clock SHA256 verify Block_body st0 (run SHA256 n st).
Proof.
  revert st. induction n as [|n IH]; intros st Hs; [done|].
  cbn [run]. destruct (step SHA256 st) as [st'|] eqn:E; [|done].
  apply IH. by eapply evolves_job.
Qed.

(** ** Heights stay within bounds *)

Lemma job_ok_mono h h' j : (h <= h')%Z -> job_ok h j -> job_ok h' j.
Proof. destruct j as [[] []]; cbn; (done || lia). Qed.

Lemma plain_job_ok h k v : plain k -> job_ok h (k, v).
Proof. by destruct k. Qed.

Lemma plain_jobs_ok h v rs :
  Forall plain rs -> Forall (job_ok h) (map (fun k => (k, v)) rs).
Proof.
  induction 1 as [|k rs Hk _ IH]; [done|].
  constructor; [by apply plain_job_ok|done].
Qed.

Ltac bounded_split :=
  repeat match goal with
    | |- _ /\ _ => split
    | |- Forall _ (_ ++ _) => apply Forall_app
    | |- Forall _ (_ :: _) => constructor
    | |- Forall _ [] => constructor
    end.

Ltac bounded_solve :=
  unfold bounded in *; cbn [chain height jobs promises fst snd] in *;
  repeat match goal with H : _ /\ _ |- _ => destruct H end;
  bounded_split; cbn; bounded_split; cbn; try done; try lia.

Lemma resolvePromise_bounded p v st : bounded st -> bounded (resolvePromise p v st).
Proof.
  destruct st as [c h ps js us vs n]. unfold resolvePromise. cbn [promises].
  destruct (ps !! p) as [[rs| |]|] eqn:E; try done.
  intros (Hh & Hc & Hj & Hp). state_simpl.
  assert (Forall plain rs) as Hrs.
  { rewrite Forall_lookup in Hp. apply (Hp p _ E). }
  unfold bounded; cbn [chain height jobs promises].
  split; [done|]. split; [done|]. split.
  - apply Forall_app. split; [done|]. by apply plain_jobs_ok.
  - by apply Forall_insert.
Qed.

Lemma forEachHeight_bounded from to k st :
  plain k -> bounded st -> bounded (forEachHeight from to k st).
Proof.
  intros Hk. unfold forEachHeight. generalize (seqZ from (to - from)). intros l.
  revert st. induction l as [|i l IH]; intros st Hb; [done|].
  cbn [foldl]. apply IH. destruct st as [c h ps js us vs n].
  rewrite getBlockByHeight_eq, (onFulfilled_fulfilled c h ps []).
  destruct Hb as (Hh & Hc & Hj & Hp). unfold bounded.
  cbn [chain height jobs promises] in *.
  split; [done|]. split; [done|]. split.
  - apply Forall_app. split; [done|]. constructor; [by apply plain_job_ok|done].
  - apply Forall_app. split; [done|]. by repeat constructor.
Qed.

Lemma chain_bound_mono (c : list Block.t) h h' :
  (h <= h')%Z ->
  Forall (fun b => 0 <= Block.height b <= h)%Z c ->
  Forall (fun b => 0 <= Block.height b <= h')%Z c.
Proof. intros Hh Hc. eapply Forall_impl; [exact Hc|]. intros b. cbn. lia. Qed.

Lemma jobs_bound_mono js h h' :
  (h <= h')%Z -> Forall (job_ok h) js -> Forall (job_ok h') js.
Proof. intros Hh Hj. eapply Forall_impl; [exact Hj|]. intros j. by apply job_ok_mono. Qed.

Lemma step_bounded st st' :
  bounded st -> step SHA256 st = Some st' -> bounded st'.
Proof.
  destruct st as [c h ps [|[k v] js] us vs n]; [done|].
  intros (Hh & Hc & Hj & Hp). cbn [chain height jobs promises] in *.
  apply Forall_cons in Hj as [Hk Hj].
  assert (bounded (mkState c h ps js us vs n)) as Hb by done.
  rewrite step_cons. destruct k.
  - destruct v; try done. rewrite resume_afterHeight. intros [= <-].
    cbn [job_ok] in Hk.
    pose proof (chain_bound_mono c h (h + 1) ltac:(lia) Hc).
    pose proof (jobs_bound_mono js h (h + 1) ltac:(lia) Hj).
    bounded_solve.
  - cbn [resume]. destruct (prim_of_value v); [|done]. intros [= <-].
    apply resolvePromise_bounded. cbn [job_ok] in Hk. state_simpl. bounded_solve.
  - cbn [resume]. intros [= <-]. by apply resolvePromise_bounded.
  - cbn [resume]. intros [= <-]. by apply resolvePromise_bounded.
  - destruct v; try done. cbn [resume]. intros [= <-].
    by apply forEachHeight_bounded.
  - destruct v; try done; cbn [resume].
    + by intros [= <-].
    + destruct (String.eqb _ _); intros [= <-]; [|done].
      by apply resolvePromise_bounded.
  - destruct v; try done. cbn [resume]. intros [= <-].
    by apply forEachHeight_bounded.
  - destruct v; try done; cbn [resume]; by intros [= <-].
Qed.

Lemma evolves_bounded st0 st :
  bounded st0 ->
  evolves clock SHA256 verify Block_body st0 st ->
  bounded st.
Proof.
  intros H0.
  induction 1 as [|st st' _ IH Hstep
                  |st address message signature star _ IH
                  |st address _ IH|st hash _ IH|st h _ IH|st address _ IH
                  |st _ IH|st _ IH|st pV st' _ IH Hv].
  - done.
  - by eapply step_bounded.
  - destruct st as [c h ps js us vs n]. rewrite submitStar_eq.
    destruct (verify message address signature);
      destruct (expired (clock n) message); bounded_solve.
  - destruct st. rewrite requestMessageOwnershipVerification_eq. bounded_solve.
  - destruct st. rewrite getBlockByHash_eq. bounded_solve.
  - destruct st. rewrite getBlockByHeight_eq. bounded_solve.
  - destruct st. rewrite getStarsByWalletAddress_eq. bounded_solve.
  - destruct st. rewrite getChainHeight_eq. bounded_solve.
  - destruct st as [c h ps js us vs n]. rewrite initializeChain_eq.
    destruct (h =? -1)%Z; bounded_solve.
  - destruct st as [c h ps js us vs n]. rewrite validateChain_eq in Hv.
    injection Hv as _ <-. bounded_solve.
Qed.

Lemma constructor_bounded : bounded (constructor clock Block_body).
Proof. rewrite constructor_eq. bounded_solve. Qed.

Lemma blockAtHeight_out_of_range (c : list Block.t) (hmax h : Z) :
  Forall (fun b => 0 <= Block.height b <= hmax)%Z c ->
  ~ (0 <= h <= hmax)%Z ->
  blockAtHeight h c = None.
Proof.
  intros Hc Hh. unfold blockAtHeight. induction Hc as [|b c Hb _ IH]; [done|].
  rewrite filter_cons. destruct (decide (Block.height b = h)); [lia|done].
Qed.

Lemma blockAtHeight_Some h c b :
  blockAtHeight h c = Some b -> b ∈ c /\ Block.height b = h.
Proof.
  unfold blockAtHeight. intros Hb. apply head_Some_elem_of in Hb.
  by apply list_elem_of_filter in Hb as [? ?].
Qed.

(** ** The genesis block and the lookup by height, however the ledger is used *)

(** C7, as amended: the constructor starts the creation of the genesis
    block and returns before it is done: at that moment [this.height] is
    -1, the chain is empty and one job is queued.  Three jobs later the
    ledger is idle, [this.height] is 0 and the chain is the genesis block
    alone, at height 0 with the body of [{data: 'Genesis Block'}].  From
    then on, whatever methods are called and whatever jobs run, in any
    order, the block at position 0 is that genesis block, it is the block
    found at height 0, [this.height] is never negative again, and
    [initializeChain] never creates another genesis block: its promise is
    fulfilled at once, it queues no job and leaves chain and height as
    they are. *)
Theorem genesis_from_then_on st :
  evolves clock SHA256 verify Block_body
    (run SHA256 3 (constructor clock Block_body)) st ->
  let st0 := constructor clock Block_body in
  let genesis := sealed SHA256 0 (Block_body "Genesis Block") (timeString (clock 0)) in
  (height st0 = (-1)%Z /\ chain st0 = [] /\ length (jobs st0) = 1%nat) /\
  (idle (run SHA256 3 st0) /\ height (run SHA256 3 st0) = 0%Z /\
   chain (run SHA256 3 st0) = [genesis] /\
   Block.height genesis = 0%Z /\ Block.body genesis = Block_body "Genesis Block") /\
  (chain st !! 0%nat = Some genesis /\
   blockAtHeight 0 (chain st) = Some genesis /\
   (0 <= height st)%Z) /\
  (promiseState (fst (initializeChain clock Block_body st))
                (snd (initializeChain clock Block_body st))
   = Some (Fulfilled VUndefined) /\
   jobs (snd (initializeChain clock Block_body st)) = jobs st /\
   same_ledger st (snd (initializeChain clock Block_body st))).
Proof.
  intros Hev. apply evolves_grows in Hev as [Hc Hh].
  rewrite constructor_run in Hc, Hh. cbn [chain height] in Hc, Hh.
  cbn zeta. rewrite constructor_run.
  split; [done|]. split; [done|].
  destruct Hc as [rest Hc]. cbn [app] in Hc.
  destruct st as [c h ps js us vs n]. cbn [chain height jobs] in *. subst c.
  split.
  - split; [done|]. split; [|done].
    unfold blockAtHeight. rewrite filter_cons. by rewrite decide_True.
  - rewrite initializeChain_eq. destruct (Z.eqb_spec h (-1)) as [->|_]; [lia|].
    unfold promiseState. state_simpl. by rewrite store_lookup.
Qed.

(** C8, as amended: in every state that a ledger reaches from
    [new Blockchain()], whatever methods are called and whatever jobs run,
    [getBlockByHeight(h)] changes neither the ledger nor the job queue and
    never rejects: its promise is fulfilled with the first block, in chain
    order, whose height is [h], and with null when no block has it.  It is
    null for every [h] outside 0..this.height, in particular for
    this.height + 1.  When moreover the blocks sit at the position of
    their height and [this.height] is the last position, as in every
    ledger used one call at a time, the block found for 0 <= h <=
    this.height is the block at position [h], and the block found at
    this.height is the last block of the chain. *)
Theorem getBlockByHeight_by_height st (h : Z) :
  evolves clock SHA256 verify Block_body (constructor clock Block_body) st ->
  let out := getBlockByHeight h st in
  (same_ledger st (snd out) /\ jobs (snd out) = jobs st /\
   unhandled (snd out) = unhandled st) /\
  promiseState (fst out) (snd out)
  = Some (Fulfilled (match blockAtHeight h (chain st) with
                     | Some b => VBlock b
                     | None => VNull
                     end)) /\
  (forall b, blockAtHeight h (chain st) = Some b ->
             b ∈ chain st /\ Block.height b = h) /\
  (~ (0 <= h <= height st)%Z -> blockAtHeight h (chain st) = None) /\
  blockAtHeight (height st + 1) (chain st) = None /\
  (consistent st ->
   ((0 <= h <= height st)%Z ->
    exists b, chain st !! Z.to_nat h = Some b /\
              blockAtHeight h (chain st) = Some b) /\
   blockAtHeight (height st) (chain st) = last (chain st)) /\
  (sequential clock SHA256 verify Block_body st -> consistent st).
Proof.
  intros Hev. apply (evolves_bounded _ _ constructor_bounded) in Hev.
  destruct Hev as (Hh & Hc & _). cbn zeta.
  destruct st as [c hh ps js us vs n]. cbn [chain height jobs unhandled] in *.
  rewrite getBlockByHeight_eq. unfold promiseState. state_simpl.
  split; [done|]. split; [apply store_lookup|].
  split; [apply blockAtHeight_Some|].
  split; [by apply blockAtHeight_out_of_range|].
  split; [apply (blockAtHeight_out_of_range c hh); [done|lia]|].
  split; [|intros Hs; by apply (sequential_settled _ _ _ _ _ Hs)].
  intros [Hlen Hpos]. cbn [chain height] in Hlen, Hpos.
  assert (forall x, blockAtHeight x c
                    = if decide (0 <= x)%Z then c !! Z.to_nat x else None) as Hget.
  { intros x. rewrite (blockAtHeight_offset c 0 x).
    - by rewrite Z.sub_0_r.
    - intros i b Hi. rewrite (Hpos i b Hi). lia. }
  split.
  - intros [H0 H1]. destruct (lookup_lt_is_Some_2 c (Z.to_nat h)) as [b Hb]; [lia|].
    exists b. split; [done|]. by rewrite Hget, decide_True.
  - rewrite Hget, last_lookup. destruct c as [|b0 c'].
    + by destruct (decide _).
    + cbn [length] in *. rewrite decide_True by lia. f_equal. lia.
Qed.

End Evolution.

(** ** The amended claims on the demo ledger *)

Lemma demo_submit_evolves_from_constructor message signature :
  evolves Demo.clock Demo.SHA256 Demo.verify Demo.Block_body
    (constructor Demo.clock Demo.Block_body)
    (snd (Demo.submit message signature Demo.ledger)).
Proof.
  unfold Demo.submit, Demo.ledger.
  rewrite (surjective_pairing (submitStar _ _ _ _ _ _ _ _)). cbn [snd].
  apply (evolves_run Demo.clock Demo.SHA256 Demo.verify Demo.Block_body _ _ 3).
  apply evolves_submitStar.
  apply (evolves_run Demo.clock Demo.SHA256 Demo.verify Demo.Block_body _ _ 3).
  apply evolves_start.
Qed.

Lemma demo_submit_evolves_from_genesis message signature :
  evolves Demo.clock Demo.SHA256 Demo.verify Demo.Block_body
    (run Demo.SHA256 3 (constructor Demo.clock Demo.Block_body))
    (snd (Demo.submit message signature Demo.ledger)).
Proof.
  unfold Demo.submit, Demo.ledger.
  rewrite (surjective_pairing (submitStar _ _ _ _ _ _ _ _)). cbn [snd].
  apply (evolves_run Demo.clock Demo.SHA256 Demo.verify Demo.Block_body _ _ 3).
  apply evolves_submitStar, evolves_start.
Qed.

(** C7 on the demo ledger after one submission: the genesis block is still
    the first block and the block found at height 0. *)
Lemma genesis_from_then_on_witness :
  evolves Demo.clock Demo.SHA256 Demo.verify Demo.Block_body
    (run Demo.SHA256 3 (constructor Demo.clock Demo.Block_body))
    (snd (Demo.submit Demo.freshMessage "good" Demo.ledger)) /\
  length (chain (snd (Demo.submit Demo.freshMessage "good" Demo.ledger))) = 2%nat /\
  blockAtHeight 0 (chain (snd (Demo.submit Demo.freshMessage "good" Demo.ledger)))
  = Some (sealed Demo.SHA256 0 (Demo.Block_body "Genesis Block")
            (timeString (Demo.clock 0))).
Proof.
  split; [apply demo_submit_evolves_from_genesis|].
  split; [vm_compute; reflexivity|].
  destruct (genesis_from_then_on Demo.clock Demo.SHA256 Demo.verify Demo.Block_body
              _ (demo_submit_evolves_from_genesis Demo.freshMessage "good"))
    as (_ & _ & (_ & Hg & _) & _).
  exact Hg.
Defined.

(** C8 as stated fails: after a submission made as soon as the constructor
    returns, the ledger is idle, [this.height] is 1 and a block sits at
    position 1, yet [getBlockByHeight(1)] is fulfilled with null. *)
Lemma getBlockByHeight_null_at_height_after_race :
  let st := run Demo.SHA256 6
              (snd (submitStar Demo.clock Demo.verify Demo.Block_body
                      "addr" Demo.freshMessage "good" VUndefined
                      (constructor Demo.clock Demo.Block_body))) in
  idle st /\ height st = 1%Z /\ is_Some (chain st !! 1%nat) /\
  promiseState (fst (getBlockByHeight (height st) st))
               (snd (getBlockByHeight (height st) st))
  = Some (Fulfilled VNull) /\
  ~ (exists b, last (chain st) = Some b /\
               promiseState (fst (getBlockByHeight (height st) st))
                            (snd (getBlockByHeight (height st) st))
               = Some (Fulfilled (VBlock b))).
Proof.
  cbn zeta. split; [vm_compute; reflexivity|]. split; [vm_compute; reflexivity|].
  split; [vm_compute; by eexists|]. split; [vm_compute; reflexivity|].
  intros (b & _ & Hb). vm_compute in Hb. discriminate Hb.
Qed.

(** C8 on the demo ledger after one submission. *)
Lemma getBlockByHeight_by_height_witness :
  evolves Demo.clock Demo.SHA256 Demo.verify Demo.Block_body
    (constructor Demo.clock Demo.Block_body)
    (snd (Demo.submit Demo.freshMessage "good" Demo.ledger)) /\
  consistent (snd (Demo.submit Demo.freshMessage "good" Demo.ledger)) /\
  blockAtHeight 1 (chain (snd (Demo.submit Demo.freshMessage "good" Demo.ledger)))
  = Some Demo.block1 /\
  promiseState
    (fst (getBlockByHeight 1 (snd (Demo.submit Demo.freshMessage "good" Demo.ledger))))
    (snd (getBlockByHeight 1 (snd (Demo.submit Demo.freshMessage "good" Demo.ledger))))
  = Some (Fulfilled
            (match blockAtHeight 1
                     (chain (snd (Demo.submit Demo.freshMessage "good" Demo.ledger))) with
             | Some b => VBlock b
             | None => VNull
             end)).
Proof.
  split; [apply demo_submit_evolves_from_constructor|].
  destruct (getBlockByHeight_by_height Demo.clock Demo.SHA256 Demo.verify
              Demo.Block_body _ 1
              (demo_submit_evolves_from_constructor Demo.freshMessage "good"))
    as (_ & Hp & _ & _ & _ & _ & Hs).
  split; [exact (Hs (demo_submit_sequential Demo.freshMessage "good"))|].
  split; [vm_compute; reflexivity | exact Hp].
Defined.
